(** * Peloton statistics aggregator: [src/statistics/stats_aggregator.cpp]

    A shallow embedding of [peloton::stats::StatsAggregator] and of the
    properties its design document states about it.

    - [int64_t] values are integers of [Z] kept in the signed 64-bit range:
      every operation of the source on them wraps explicitly ([Int64]).
    - [double] values are IEEE binary64 numbers, the kernel's primitive
      floats ([Double]).
    - [std::unordered_map] is a finite map of stdpp ([gmap]); iterating over
      it visits [map_to_list].
    - [PL_ASSERT] is [assert] in a build with assertions: it aborts the
      process when its condition is false. Functions that assert return an
      [option], [None] being the abort. *)

From Stdlib Require Import ZArith Floats Uint63 Lia.
From stdpp Require Import gmap list fin_maps strings.

Set Warnings "-inexact-float".
Local Open Scope Z_scope.

(** ** Machine numbers *)

Module Int64.

Definition half_modulus : Z := 2 ^ 63.
Definition modulus : Z := 2 ^ 64.

(** The value a two's complement 64-bit register holds for [z]. *)
Definition wrap (z : Z) : Z := (z + half_modulus) `mod` modulus - half_modulus.

Definition in_range (z : Z) : Prop := - half_modulus ≤ z < half_modulus.

Definition add (a b : Z) : Z := wrap (a + b).
Definition sub (a b : Z) : Z := wrap (a - b).
(** [x++] *)
Definition incr (a : Z) : Z := add a 1.

End Int64.

Module Double.

(** [(double) z] for an [int64_t] [z]: the nearest binary64 number. The
    primitive conversion takes a 63-bit magnitude, and [-2^63] is a power of
    two. *)
Definition of_int64 (z : Z) : float :=
  if z =? - Int64.half_modulus then (-0x1p63)%float
  else if z <? 0 then (- PrimFloat.of_uint63 (Uint63.of_Z (- z)))%float
  else PrimFloat.of_uint63 (Uint63.of_Z z).

End Double.

(** ** Identities *)

(** [oid_t], the catalog's object identifiers. *)
Abbreviation oid_t := N.

(** [std::thread::id]. The value [0] is the default-constructed identity,
    the one that [get_id()] returns for a [std::thread] object that has no
    thread (never started, or joined). *)
Abbreviation thread_id := N.
Definition no_thread : thread_id := 0%N.

(** ** Metrics and the per-thread statistics context

    [statistics/backend_stats_context.h] and the metric classes live in
    other files of the repository. The aggregator only uses them through
    [Reset], [Aggregate], the accessors and [database_metrics_]. *)

Module CounterMetric.

(** Modelled from the spec: the class [CounterMetric] is missing; a counter
    is a cumulative count read with [GetCounter], and merging two counters
    adds them (section 4.2: per-field merge is additive). *)
Record t : Type := Build { GetCounter : Z }.

Definition zero : t := Build 0.
Definition Aggregate (dst src : t) : t := Build (GetCounter dst + GetCounter src).

End CounterMetric.

Module AccessMetric.

(** Modelled from the spec: the class [AccessMetric] is missing; the access
    counters of a table or of an index (section 3: reads, updates, deletes,
    inserts), merged by addition. *)
Record t : Type := Build {
  GetReads : Z;
  GetUpdates : Z;
  GetDeletes : Z;
  GetInserts : Z
}.

Definition zero : t := Build 0 0 0 0.
Definition Aggregate (dst src : t) : t :=
  Build (GetReads dst + GetReads src) (GetUpdates dst + GetUpdates src)
        (GetDeletes dst + GetDeletes src) (GetInserts dst + GetInserts src).

End AccessMetric.

Module DatabaseMetric.

(** Modelled from the spec: the class [DatabaseMetric] is missing; the
    per-database counters (section 3: transactions committed, transactions
    aborted). *)
Record t : Type := Build {
  GetTxnCommitted : CounterMetric.t;
  GetTxnAborted : CounterMetric.t
}.

Definition zero : t := Build CounterMetric.zero CounterMetric.zero.
Definition Aggregate (dst src : t) : t :=
  Build (CounterMetric.Aggregate (GetTxnCommitted dst) (GetTxnCommitted src))
        (CounterMetric.Aggregate (GetTxnAborted dst) (GetTxnAborted src)).

End DatabaseMetric.

Module TableMetric.

(** Modelled from the spec: the class [TableMetric] is missing. *)
Record t : Type := Build { GetTableAccess : AccessMetric.t }.

Definition zero : t := Build AccessMetric.zero.
Definition Aggregate (dst src : t) : t :=
  Build (AccessMetric.Aggregate (GetTableAccess dst) (GetTableAccess src)).

End TableMetric.

Module IndexMetric.

(** Modelled from the spec: the class [IndexMetric] is missing. *)
Record t : Type := Build { GetIndexAccess : AccessMetric.t }.

Definition zero : t := Build AccessMetric.zero.
Definition Aggregate (dst src : t) : t :=
  Build (AccessMetric.Aggregate (GetIndexAccess dst) (GetIndexAccess src)).

End IndexMetric.

Module QueryMetric.

(** Modelled from the spec: the class [QueryMetric] is missing; a
    completed-query record (section 3: name, database id, access counts,
    latency, CPU time). The parameter buffers are left out, no property
    reads them. *)
Record t : Type := Build {
  GetName : string;
  GetDatabaseId : oid_t;
  GetQueryAccess : AccessMetric.t;
  GetQueryLatency : float;
  GetSystemDuration : float;
  GetUserDuration : float
}.

End QueryMetric.

(** Merging two metric tables: a key of both gets the merged metric, a key
    of one side keeps its metric. *)
Definition merge_metrics `{Countable K} {M : Type} (f : M → M → M)
    (dst src : gmap K M) : gmap K M :=
  union_with (λ a b, Some (f a b)) dst src.

Module BackendStatsContext.

(** Modelled from the spec: the class [BackendStatsContext] is missing; the
    counter bundle of one thread (section 3): per-database, per-table and
    per-index metrics and the queue of completed-query records. *)
Record t : Type := Build {
  database_metrics_ : gmap oid_t DatabaseMetric.t;
  table_metrics_ : gmap (oid_t * oid_t) TableMetric.t;
  index_metrics_ : gmap (oid_t * oid_t * oid_t) IndexMetric.t;
  completed_query_metrics_ : list QueryMetric.t
}.

(** The context built by [BackendStatsContext(n, false)]. *)
Definition empty : t := Build ∅ ∅ ∅ [].

(** Modelled from the spec: [Reset] is missing; the accumulator is
    "recreated (logically reset) at the start of every cycle" (section 3). *)
Definition Reset (c : t) : t := empty.

(** Modelled from the spec: [Aggregate(source)] is missing; it folds the
    per-database, per-table and per-index counters of [source] into the
    receiver by addition and drains the completed-query queue of [source]
    into the receiver's (section 4.2). The source is passed by reference and
    loses its queue: the result is the receiver and the source afterwards. *)
Definition Aggregate (dst source : t) : t * t :=
  (Build (merge_metrics DatabaseMetric.Aggregate (database_metrics_ dst) (database_metrics_ source))
         (merge_metrics TableMetric.Aggregate (table_metrics_ dst) (table_metrics_ source))
         (merge_metrics IndexMetric.Aggregate (index_metrics_ dst) (index_metrics_ source))
         (completed_query_metrics_ dst ++ completed_query_metrics_ source),
   Build (database_metrics_ source) (table_metrics_ source) (index_metrics_ source) []).

(** Modelled from the spec: the accessors [GetDatabaseMetric],
    [GetTableMetric] and [GetIndexMetric] are missing; section 6 has them
    read-only, an identifier without an entry reads as the zero metric. *)
Definition GetDatabaseMetric (c : t) (database_id : oid_t) : DatabaseMetric.t :=
  default DatabaseMetric.zero (database_metrics_ c !! database_id).
Definition GetTableMetric (c : t) (database_id table_id : oid_t) : TableMetric.t :=
  default TableMetric.zero (table_metrics_ c !! (database_id, table_id)).
Definition GetIndexMetric (c : t) (database_id table_id index_id : oid_t) : IndexMetric.t :=
  default IndexMetric.zero (index_metrics_ c !! (database_id, table_id, index_id)).

End BackendStatsContext.

(** ** The cumulative counters of a context

    Every counter a context holds, named by what it counts. [read_counter]
    is the value of one of them. *)
Inductive counter : Type :=
  | TxnCommitted (database_id : oid_t)
  | TxnAborted (database_id : oid_t)
  | TableReads (database_id table_id : oid_t)
  | TableUpdates (database_id table_id : oid_t)
  | TableDeletes (database_id table_id : oid_t)
  | TableInserts (database_id table_id : oid_t)
  | IndexReads (database_id table_id index_id : oid_t)
  | IndexUpdates (database_id table_id index_id : oid_t)
  | IndexDeletes (database_id table_id index_id : oid_t)
  | IndexInserts (database_id table_id index_id : oid_t).

Definition read_counter (c : BackendStatsContext.t) (k : counter) : Z :=
  let db d := BackendStatsContext.GetDatabaseMetric c d in
  let tb d t := TableMetric.GetTableAccess (BackendStatsContext.GetTableMetric c d t) in
  let ix d t i := IndexMetric.GetIndexAccess (BackendStatsContext.GetIndexMetric c d t i) in
  match k with
  | TxnCommitted d => CounterMetric.GetCounter (DatabaseMetric.GetTxnCommitted (db d))
  | TxnAborted d => CounterMetric.GetCounter (DatabaseMetric.GetTxnAborted (db d))
  | TableReads d t => AccessMetric.GetReads (tb d t)
  | TableUpdates d t => AccessMetric.GetUpdates (tb d t)
  | TableDeletes d t => AccessMetric.GetDeletes (tb d t)
  | TableInserts d t => AccessMetric.GetInserts (tb d t)
  | IndexReads d t i => AccessMetric.GetReads (ix d t i)
  | IndexUpdates d t i => AccessMetric.GetUpdates (ix d t i)
  | IndexDeletes d t i => AccessMetric.GetDeletes (ix d t i)
  | IndexInserts d t i => AccessMetric.GetInserts (ix d t i)
  end.

(** ** The aggregator *)

Module StatsAggregator.

(** The fields of [class StatsAggregator] that the code below reads or
    writes. [backend_stats_] holds non-owning pointers to the contexts of the
    worker threads; a worker owns exactly one context and registers it under
    its own identity, so the map is taken to hold, for each identity, the
    current contents of the context it points to: what a worker records and
    what a cycle drains act on this one stored value. The declared types of
    [thread_number_] and of [is_aggregating_] are in the header; the count
    is an integer and the flag starts out false. *)
Record t : Type := Build {
  stats_history_ : BackendStatsContext.t;
  aggregated_stats_ : BackendStatsContext.t;
  backend_stats_ : gmap thread_id BackendStatsContext.t;
  aggregation_interval_ms_ : Z;
  thread_number_ : Z;
  total_prev_txn_committed_ : Z;
  is_aggregating_ : bool;
  aggregator_thread_ : thread_id
}.

Definition set_stats_history_ (h : BackendStatsContext.t) (s : t) : t :=
  Build h (aggregated_stats_ s) (backend_stats_ s) (aggregation_interval_ms_ s)
        (thread_number_ s) (total_prev_txn_committed_ s) (is_aggregating_ s)
        (aggregator_thread_ s).
Definition set_aggregated_stats_ (a : BackendStatsContext.t) (s : t) : t :=
  Build (stats_history_ s) a (backend_stats_ s) (aggregation_interval_ms_ s)
        (thread_number_ s) (total_prev_txn_committed_ s) (is_aggregating_ s)
        (aggregator_thread_ s).
Definition set_backend_stats_ (m : gmap thread_id BackendStatsContext.t) (s : t) : t :=
  Build (stats_history_ s) (aggregated_stats_ s) m (aggregation_interval_ms_ s)
        (thread_number_ s) (total_prev_txn_committed_ s) (is_aggregating_ s)
        (aggregator_thread_ s).
Definition set_thread_number_ (n : Z) (s : t) : t :=
  Build (stats_history_ s) (aggregated_stats_ s) (backend_stats_ s)
        (aggregation_interval_ms_ s) n (total_prev_txn_committed_ s)
        (is_aggregating_ s) (aggregator_thread_ s).
Definition set_total_prev_txn_committed_ (n : Z) (s : t) : t :=
  Build (stats_history_ s) (aggregated_stats_ s) (backend_stats_ s)
        (aggregation_interval_ms_ s) (thread_number_ s) n (is_aggregating_ s)
        (aggregator_thread_ s).
Definition set_is_aggregating_ (b : bool) (s : t) : t :=
  Build (stats_history_ s) (aggregated_stats_ s) (backend_stats_ s)
        (aggregation_interval_ms_ s) (thread_number_ s)
        (total_prev_txn_committed_ s) b (aggregator_thread_ s).
Definition set_aggregator_thread_ (i : thread_id) (s : t) : t :=
  Build (stats_history_ s) (aggregated_stats_ s) (backend_stats_ s)
        (aggregation_interval_ms_ s) (thread_number_ s)
        (total_prev_txn_committed_ s) (is_aggregating_ s) i.

(** [aggregator_thread_.get_id()] and [aggregator_thread_.joinable()]. *)
Definition get_id (s : t) : thread_id := aggregator_thread_ s.
Definition joinable (s : t) : bool := negb (aggregator_thread_ s =? no_thread)%N.

(** The member initialisers of the constructor, before it calls
    [LaunchAggregator]. *)
Definition initial (aggregation_interval_ms : Z) : t :=
  Build BackendStatsContext.empty BackendStatsContext.empty ∅
        aggregation_interval_ms 0 0 false no_thread.

(** [LaunchAggregator]: [spawned] is the identity the system gives the new
    thread. Assigning to a [std::thread] that still has a thread terminates
    the process. *)
Definition LaunchAggregator (spawned : positive) (s : t) : option t :=
  if is_aggregating_ s then Some s
  else if joinable s then None
  else Some (set_is_aggregating_ true (set_aggregator_thread_ (Npos spawned) s)).

(** [StatsAggregator(aggregation_interval_ms)] *)
Definition construct (aggregation_interval_ms : Z) (spawned : positive) : option t :=
  LaunchAggregator spawned (initial aggregation_interval_ms).

(** [ShutdownAggregator]: clears the flag, notifies the condition variable
    and joins the thread, after which the [std::thread] object has no
    thread. [join] on an object without a thread throws. *)
Definition ShutdownAggregator (s : t) : option t :=
  if is_aggregating_ s then
    if joinable s
    then Some (set_aggregator_thread_ no_thread (set_is_aggregating_ false s))
    else None
  else Some s.

(** [RegisterContext]: the assertion, then the count and the map. *)
Definition RegisterContext (id_ : thread_id) (context_ : BackendStatsContext.t)
    (s : t) : option t :=
  match backend_stats_ s !! id_ with
  | Some _ => None
  | None =>
      let s := set_thread_number_ (thread_number_ s + 1) s in
      Some (set_backend_stats_ (<[id_ := context_]> (backend_stats_ s)) s)
  end.

(** [UnregisterContext] *)
Definition UnregisterContext (id : thread_id) (s : t) : t :=
  match backend_stats_ s !! id with
  | Some context =>
      let s := set_stats_history_ (BackendStatsContext.Aggregate (stats_history_ s) context).1 s in
      let s := set_backend_stats_ (delete id (backend_stats_ s)) s in
      set_thread_number_ (thread_number_ s - 1) s
  | None => s
  end.

(** *** One aggregation cycle *)

(** The locals of [RunAggregator] that [Aggregate] takes by reference. *)
Record locals : Type := Locals {
  interval_cnt : Z;
  alpha : float;
  weighted_avg_throughput : float
}.

(** What a cycle traces: the three throughput figures, and the two integers
    they are computed from. *)
Record figures : Type := Figures {
  current_txns_committed : Z;
  txns_committed_this_interval : Z;
  throughput_ : float;
  avg_throughput_ : float;
  moving_avg_throughput : float
}.

(** The body of the loop over [backend_stats_] (lines 79 to 84): [val] is
    the entry visited, the accumulator and the contexts are updated in
    place. *)
Definition aggregate_entry (this_id : thread_id)
    (st : BackendStatsContext.t * gmap thread_id BackendStatsContext.t)
    (val : thread_id * BackendStatsContext.t)
    : BackendStatsContext.t * gmap thread_id BackendStatsContext.t :=
  if decide (val.1 ≠ this_id) then
    let r := BackendStatsContext.Aggregate st.1 val.2 in
    (r.1, <[val.1 := r.2]> st.2)
  else st.

(** Lines 76 to 85: reset, merge the registered contexts but the
    aggregator's own, merge the history. *)
Definition merge_contexts (s : t) : t :=
  let aggregated := BackendStatsContext.Reset (aggregated_stats_ s) in
  let this_id := get_id s in
  let st := foldl (aggregate_entry this_id) (aggregated, backend_stats_ s)
                  (map_to_list (backend_stats_ s)) in
  let r := BackendStatsContext.Aggregate st.1 (stats_history_ s) in
  set_aggregated_stats_ r.1 (set_stats_history_ r.2 (set_backend_stats_ st.2 s)).

(** Lines 88 to 93 *)
Definition sum_txns_committed (aggregated : BackendStatsContext.t) : Z :=
  foldl (λ current database_item,
           Int64.add current
             (CounterMetric.GetCounter (DatabaseMetric.GetTxnCommitted database_item.2)))
        0 (map_to_list (BackendStatsContext.database_metrics_ aggregated)).

(** [UpdateMetrics] writes the rows of the metric tables inside a
    transaction of the catalog, which is taken to hold its metric tables (the
    assertions of [GetMetricTable]); of the aggregator it changes the queue
    of completed queries, which [UpdateQueryMetrics] dequeues until it is
    empty. *)
Definition UpdateMetrics (s : t) : t :=
  let a := aggregated_stats_ s in
  set_aggregated_stats_
    (BackendStatsContext.Build (BackendStatsContext.database_metrics_ a)
       (BackendStatsContext.table_metrics_ a) (BackendStatsContext.index_metrics_ a) [])
    s.

Section Cycle.

(** The macro [STATS_AGGREGATION_INTERVAL_MS] is defined in the header. *)
Variable STATS_AGGREGATION_INTERVAL_MS : Z.

(** Lines 94 to 102, from the committed total [current], the total of the
    previous cycle [prev] and the locals after [interval_cnt++]. *)
Definition throughput_figures (current prev : Z) (l : locals) : figures :=
  let delta := Int64.sub current prev in
  let thr := (Double.of_int64 delta / Double.of_int64 1000
              * Double.of_int64 STATS_AGGREGATION_INTERVAL_MS)%float in
  let avg := (Double.of_int64 current / Double.of_int64 (interval_cnt l)
              / Double.of_int64 STATS_AGGREGATION_INTERVAL_MS
              * Double.of_int64 1000)%float in
  let weighted :=
    if interval_cnt l =? 1 then thr
    else (alpha l * thr + (Double.of_int64 1 - alpha l) * weighted_avg_throughput l)%float in
  Figures current delta thr avg weighted.

(** [Aggregate(interval_cnt, alpha, weighted_avg_throughput)]. The durable
    log written every [STATS_LOG_INTERVALS] cycles is an output that nothing
    here reads back. *)
Definition Aggregate (s : t) (l : locals) : t * locals * figures :=
  let l := Locals (Int64.incr (interval_cnt l)) (alpha l) (weighted_avg_throughput l) in
  let s := merge_contexts s in
  let current := sum_txns_committed (aggregated_stats_ s) in
  let f := throughput_figures current (total_prev_txn_committed_ s) l in
  let l := Locals (interval_cnt l) (alpha l) (moving_avg_throughput f) in
  let s := set_total_prev_txn_committed_ current s in
  let s := UpdateMetrics s in
  (s, l, f).

End Cycle.

End StatsAggregator.

(** ** Worker threads, the scheduler loop and traces *)

(** What the threads other than the aggregator do to the aggregator, one
    atomic step each. [Accrue] is a worker adding [activity] (counter
    increments, completed queries) to its own registered context;
    [RequestShutdown] is the store [is_aggregating_ = false] that
    [ShutdownAggregator] makes before it blocks in [join]. *)
Inductive op : Type :=
  | Register (id_ : thread_id) (context_ : BackendStatsContext.t)
  | Unregister (id : thread_id)
  | Accrue (id : thread_id) (activity : BackendStatsContext.t)
  | RequestShutdown.

(** A worker records in the context registered under its identity; without
    one there is no such step. *)
Definition record_activity (id : thread_id) (activity : BackendStatsContext.t)
    (s : StatsAggregator.t) : option StatsAggregator.t :=
  context ← StatsAggregator.backend_stats_ s !! id;
  Some (StatsAggregator.set_backend_stats_
          (<[id := (BackendStatsContext.Aggregate context activity).1]>
             (StatsAggregator.backend_stats_ s)) s).

Definition apply_op (o : op) (s : StatsAggregator.t) : option StatsAggregator.t :=
  match o with
  | Register id_ context_ => StatsAggregator.RegisterContext id_ context_ s
  | Unregister id => Some (StatsAggregator.UnregisterContext id s)
  | Accrue id activity => record_activity id activity s
  | RequestShutdown => Some (StatsAggregator.set_is_aggregating_ false s)
  end.

Fixpoint run_ops (ops : list op) (s : StatsAggregator.t) : option StatsAggregator.t :=
  match ops with
  | [] => Some s
  | o :: ops => s ← apply_op o s; run_ops ops s
  end.

(** [std::cv_status] *)
Inductive cv_status : Type := no_timeout | timeout.

Definition is_timeout (c : cv_status) : bool :=
  match c with timeout => true | no_timeout => false end.

(** One return of [exec_finished_.wait_for]: what the other threads did
    [during] the wait, and the [status] it returned. *)
Record wake : Type := Wake { during : list op; status : cv_status }.

(** Where a run of [RunAggregator] stands after some wakes: the aggregator,
    the locals, the figures traced by each cycle so far (oldest first), and
    whether the loop was left ([returned]). *)
Record run : Type := Run {
  aggregator : StatsAggregator.t;
  frame : StatsAggregator.locals;
  traced : list StatsAggregator.figures;
  returned : bool
}.

Section Scheduler.

Variable STATS_AGGREGATION_INTERVAL_MS : Z.

(** The [while] loop of [RunAggregator] (lines 272 to 276) along the wakes
    [ws]. *)
Fixpoint RunAggregator_loop (ws : list wake) (s : StatsAggregator.t)
    (l : StatsAggregator.locals) (log : list StatsAggregator.figures) : option run :=
  match ws with
  | [] => Some (Run s l log false)
  | w :: ws =>
      s ← run_ops (during w) s;
      if is_timeout (status w) && StatsAggregator.is_aggregating_ s then
        let r := StatsAggregator.Aggregate STATS_AGGREGATION_INTERVAL_MS s l in
        RunAggregator_loop ws r.1.1 r.1.2 (log ++ [r.2])
      else Some (Run s l log true)
  end.

(** [RunAggregator] with its locals (lines 268 to 270). *)
Definition RunAggregator (ws : list wake) (s : StatsAggregator.t) : option run :=
  RunAggregator_loop ws s (StatsAggregator.Locals 0 0.4%float 0.0%float) [].

(** Any interleaving of the steps of the other threads with aggregation
    cycles. *)
Inductive event : Type :=
  | Step (o : op)
  | Cycle.

Definition apply_event (e : event) (w : StatsAggregator.t * StatsAggregator.locals)
    : option (StatsAggregator.t * StatsAggregator.locals) :=
  match e with
  | Step o => s ← apply_op o w.1; Some (s, w.2)
  | Cycle => Some (StatsAggregator.Aggregate STATS_AGGREGATION_INTERVAL_MS w.1 w.2).1
  end.

Fixpoint run_events (es : list event) (w : StatsAggregator.t * StatsAggregator.locals)
    : option (StatsAggregator.t * StatsAggregator.locals) :=
  match es with
  | [] => Some w
  | e :: es => w ← apply_event e w; run_events es w
  end.

End Scheduler.

(** ** Totals *)

(** The sum of one counter over the registered contexts. *)
Definition live_total (m : gmap thread_id BackendStatsContext.t) (k : counter) : Z :=
  map_fold (λ _ c acc, read_counter c k + acc) 0 m.

(** What the aggregator holds of a counter: history plus registered
    contexts. *)
Definition held_total (s : StatsAggregator.t) (k : counter) : Z :=
  read_counter (StatsAggregator.stats_history_ s) k
  + live_total (StatsAggregator.backend_stats_ s) k.

(** What the workers ever counted along a trace: the contents of each
    context when it was registered, and each activity recorded since. A
    context is registered once, when its thread starts (section 3): what it
    holds at that point has not been counted before. *)
Definition contribution (e : event) (k : counter) : Z :=
  match e with
  | Step (Register _ context_) => read_counter context_ k
  | Step (Accrue _ activity) => read_counter activity k
  | _ => 0
  end.

Definition lifetime_total (es : list event) (k : counter) : Z :=
  foldr (λ e acc, contribution e k + acc) 0 es.

(** The live-thread count is the size of the registry. *)
Definition count_matches (s : StatsAggregator.t) : Prop :=
  StatsAggregator.thread_number_ s = Z.of_nat (size (StatsAggregator.backend_stats_ s)).

(** The instantaneous throughput as the design document has it (section
    4.3): the committed transactions of the interval divided by the
    duration of the interval, in transactions per second for an interval
    given in milliseconds. *)
Definition spec_instant_throughput (delta interval_ms : Z) : float :=
  (Double.of_int64 delta / (Double.of_int64 interval_ms / Double.of_int64 1000))%float.

(** ** Scenarios

    Concrete runs, after the scenarios of the design document (section 8). *)

(** A context that counts [committed] and [aborted] transactions on the
    database [d] and nothing else. *)
Definition txns (d : oid_t) (committed aborted : Z) : BackendStatsContext.t :=
  BackendStatsContext.Build
    {[ d := DatabaseMetric.Build (CounterMetric.Build committed) (CounterMetric.Build aborted) ]}
    ∅ ∅ [].

(** The aggregator built with a period of one second, its thread being
    thread 9. *)
Definition started : StatsAggregator.t :=
  StatsAggregator.set_is_aggregating_ true
    (StatsAggregator.set_aggregator_thread_ 9%N (StatsAggregator.initial 1000)).

(** Scenario B: workers 1 and 2 register and commit 5 and 7 transactions on
    database 3, a cycle runs, worker 1 unregisters, worker 2 commits 3 more,
    a second cycle runs. *)
Definition scenario_b : list event :=
  [ Step (Register 1 BackendStatsContext.empty);
    Step (Register 2 BackendStatsContext.empty);
    Step (Accrue 1 (txns 3 5 0));
    Step (Accrue 2 (txns 3 7 0));
    Cycle;
    Step (Unregister 1);
    Step (Accrue 2 (txns 3 3 0));
    Cycle ].

(** The same run as the scheduler loop sees it: two waits that time out. *)
Definition scenario_b_cycles : list wake :=
  [ Wake [ Register 1 BackendStatsContext.empty; Register 2 BackendStatsContext.empty;
           Accrue 1 (txns 3 5 0); Accrue 2 (txns 3 7 0) ] timeout;
    Wake [ Unregister 1; Accrue 2 (txns 3 3 0) ] timeout ].

(** The wait that [ShutdownAggregator] ends, and a timeout listed after it. *)
Definition shutdown_wake : wake := Wake [ RequestShutdown ] no_timeout.
Definition late_wakes : list wake := [ Wake [ Accrue 2 (txns 3 4 0) ] timeout ].

Definition scenario_b_wakes : list wake :=
  scenario_b_cycles ++ shutdown_wake :: late_wakes.

(** The metric tables of a context, that is the context without its queue,
    and their merge. *)
Definition tables (c : BackendStatsContext.t)
    : gmap oid_t DatabaseMetric.t * gmap (oid_t * oid_t) TableMetric.t
      * gmap (oid_t * oid_t * oid_t) IndexMetric.t :=
  (BackendStatsContext.database_metrics_ c, BackendStatsContext.table_metrics_ c,
   BackendStatsContext.index_metrics_ c).

Definition merge_tables
    (a b : gmap oid_t DatabaseMetric.t * gmap (oid_t * oid_t) TableMetric.t
           * gmap (oid_t * oid_t * oid_t) IndexMetric.t)
    : gmap oid_t DatabaseMetric.t * gmap (oid_t * oid_t) TableMetric.t
      * gmap (oid_t * oid_t * oid_t) IndexMetric.t :=
  (merge_metrics DatabaseMetric.Aggregate a.1.1 b.1.1,
   merge_metrics TableMetric.Aggregate a.1.2 b.1.2,
   merge_metrics IndexMetric.Aggregate a.2 b.2).

(** The accumulator as the design document has it (section 3): the merge
    of the history with every registered context but the one registered
    under the identity of the aggregation thread. *)
Definition spec_accumulator (s : StatsAggregator.t) : BackendStatsContext.t :=
  foldr (λ val acc, (BackendStatsContext.Aggregate acc val.2).1)
        (StatsAggregator.stats_history_ s)
        (map_to_list (delete (StatsAggregator.get_id s) (StatsAggregator.backend_stats_ s))).

(** Scenario A with the aggregation thread itself registered: worker 1
    counts 10 committed and 2 aborted transactions on database 3, thread 9
    (the aggregator) counts 4 committed ones while it writes its rows. *)
Definition scenario_a : StatsAggregator.t :=
  StatsAggregator.set_backend_stats_ {[ 1%N := txns 3 10 2; 9%N := txns 3 4 0 ]} started.

(** A worker whose committed count goes backwards between two cycles. *)
Definition counter_reset : list op := [ Accrue 1 (txns 3 (-4) 0) ].

(** The locals of [RunAggregator] before the first cycle. *)
Definition first_locals : StatsAggregator.locals :=
  StatsAggregator.Locals 0 0.4%float 0.0%float.

(** Scenario A on an aggregator configured with a period of two seconds. *)
Definition scenario_two_seconds : StatsAggregator.t :=
  StatsAggregator.set_backend_stats_ {[ 1%N := txns 3 10 2 ]}
    (StatsAggregator.set_is_aggregating_ true
       (StatsAggregator.set_aggregator_thread_ 9%N (StatsAggregator.initial 2000))).

(** The weighted average along the figures traced by the cycles of one
    run, oldest first: the first is the instantaneous throughput of its
    cycle, each later one smooths the throughput of its cycle into the
    weighted average before it, with factor 0.4. *)
Definition smoothed (log : list StatsAggregator.figures) : Prop :=
  ∀ n f, log !! n = Some f →
    match n with
    | O => StatsAggregator.moving_avg_throughput f = StatsAggregator.throughput_ f
    | S m =>
        ∃ prev, log !! m = Some prev
          ∧ StatsAggregator.moving_avg_throughput f
            = (0.4 * StatsAggregator.throughput_ f
               + (1 - 0.4) * StatsAggregator.moving_avg_throughput prev)%float
    end.

(** A context after [Aggregate] read it as its source. *)
Definition drained (c : BackendStatsContext.t) : BackendStatsContext.t :=
  (BackendStatsContext.Aggregate BackendStatsContext.empty c).2.

(** The contexts of the other threads are drained, the aggregator's own is
    left alone. *)
Definition visited (this_id : thread_id) (id : thread_id) (c : BackendStatsContext.t)
    : BackendStatsContext.t :=
  if decide (id ≠ this_id) then drained c else c.

(** ** The life of the aggregator object *)

(** The calls that start and stop the aggregation thread. *)
Inductive lifecycle_call : Type :=
  | Launch (spawned : positive)
  | Shutdown.

Definition apply_call (c : lifecycle_call) (s : StatsAggregator.t)
    : option StatsAggregator.t :=
  match c with
  | Launch spawned => StatsAggregator.LaunchAggregator spawned s
  | Shutdown => StatsAggregator.ShutdownAggregator s
  end.

Fixpoint run_calls (cs : list lifecycle_call) (s : StatsAggregator.t)
    : option StatsAggregator.t :=
  match cs with
  | [] => Some s
  | c :: cs => s ← apply_call c s; run_calls cs s
  end.

(** [~StatsAggregator()]: the body calls [ShutdownAggregator] and closes the
    log file, then the members are destroyed; destroying a [std::thread]
    that still has a thread terminates the process. The result is the
    aggregator as the body leaves it. *)
Definition destructor (s : StatsAggregator.t) : option StatsAggregator.t :=
  s ← StatsAggregator.ShutdownAggregator s;
  if StatsAggregator.joinable s then None else Some s.

(** The flag is up exactly when the thread object has a thread. *)
Definition flag_matches_thread (s : StatsAggregator.t) : Prop :=
  StatsAggregator.is_aggregating_ s = StatsAggregator.joinable s.

(** A run of the aggregator's own fields through some registrations. *)
Definition scenario_registry : StatsAggregator.t :=
  StatsAggregator.set_thread_number_ 2
    (StatsAggregator.set_backend_stats_ {[ 1%N := txns 3 5 0; 2%N := txns 3 7 1 ]} started).

(** A run whose second wait is ended by a timeout although the shutdown was
    requested during it: the notification was missed. *)
Definition missed_notification : wake := Wake [ Unregister 1; RequestShutdown ] timeout.

(** What a step of another thread adds to the accumulator of the next
    cycle, for the aggregator [s] it is applied to: a registration adds the
    context and an activity adds itself unless the identity is the
    aggregation thread's, an unregistration adds the context only when the
    identity is the aggregation thread's. *)
Definition shown_contribution (o : op) (s : StatsAggregator.t) (k : counter) : Z :=
  match o with
  | Register id_ context_ =>
      if decide (id_ = StatsAggregator.get_id s) then 0 else read_counter context_ k
  | Unregister id =>
      if decide (id = StatsAggregator.get_id s)
      then from_option (λ c, read_counter c k) 0 (StatsAggregator.backend_stats_ s !! id)
      else 0
  | Accrue id activity =>
      if decide (id = StatsAggregator.get_id s) then 0 else read_counter activity k
  | RequestShutdown => 0
  end.

(** ** Writing the metrics of a cycle

    [UpdateMetrics] and the functions it calls read the catalog and insert
    one tuple per database, table, index and completed query into the metric
    tables, all inside one transaction. The catalog, the tuples and the
    transaction manager live in other files; here the catalog is the data
    the code reads from it, a tuple is the list of values it is built from,
    and a transaction is the list of the insertions made in it. *)

(** [(int64_t) x] for a [double] [x]: the fraction is dropped. A value
    outside the range of [int64_t] has no defined result in C++; it is given
    the value the x86-64 conversion instruction returns. *)
Definition double_to_int64 (x : float) : Z :=
  match Prim2SF x with
  | S754_zero _ => 0
  | S754_finite sign m e =>
      let magnitude := if 0 <=? e then Z.pos m * 2 ^ e else Z.pos m / 2 ^ (- e) in
      let v := if sign then - magnitude else magnitude in
      if (- Int64.half_modulus <=? v) && (v <? Int64.half_modulus) then v
      else - Int64.half_modulus
  | _ => - Int64.half_modulus
  end.

Module Index.
(** An index of the catalog, read with [GetOid]. *)
Record t : Type := Build { GetOid : oid_t }.
End Index.

Module DataTable.
(** A table of the catalog: [GetOid], [GetName], and its indexes, which the
    code reads with [GetIndexCount] and [GetIndex(offset)]. *)
Record t : Type := Build {
  GetOid : oid_t;
  GetName : string;
  indexes : list Index.t
}.
End DataTable.

Module Database.
(** A database of the catalog: [GetOid], its name, and its tables, which
    the code reads with [GetTableCount] and [GetTable(offset)]. *)
Record t : Type := Build {
  GetOid : oid_t;
  GetDBName : string;
  tables : list DataTable.t
}.

(** [GetTableWithName]: the first table of that name, a null pointer when
    there is none. *)
Definition GetTableWithName (d : t) (table_name : string) : option DataTable.t :=
  snd <$> list_find (λ table, DataTable.GetName table = table_name) (tables d).
End Database.

Module Catalog.
(** The catalog: its databases, which the code reads with
    [GetDatabaseCount] and [GetDatabaseWithOffset(offset)]. *)
Record t : Type := Build { databases : list Database.t }.

Definition GetDatabaseCount (c : t) : nat := length (databases c).

(** [GetDatabaseWithName]: the first database of that name, a null pointer
    when there is none. *)
Definition GetDatabaseWithName (c : t) (database_name : string) : option Database.t :=
  snd <$> list_find (λ database, Database.GetDBName database = database_name) (databases c).
End Catalog.

Module QueryParams.
(** The parameters of a completed query, as [UpdateQueryMetrics] copies
    them. *)
Record t : Type := Build {
  num_params : Z;
  val_buf_copy : list N;
  format_buf_copy : list N;
  type_buf_copy : list N
}.
End QueryParams.

Module Header.
(** What the code takes from headers of other files: the names of the
    catalog database and of its four metric tables, the two macros of the
    aggregator, and the accessor of the parameters of a completed query (a
    null pointer for a query without parameters), which the record of a
    completed query leaves out. *)
Record t : Type := Build {
  CATALOG_DATABASE_NAME : string;
  DATABASE_METRIC_NAME : string;
  TABLE_METRIC_NAME : string;
  INDEX_METRIC_NAME : string;
  QUERY_METRIC_NAME : string;
  STATS_AGGREGATION_INTERVAL_MS : Z;
  STATS_LOG_INTERVALS : Z;
  GetQueryParams : QueryMetric.t → option QueryParams.t
}.
End Header.

(** The values a metric tuple is built from, in the order of the arguments
    of [GetDatabaseMetricsCatalogTuple], [GetTableMetricsCatalogTuple],
    [GetIndexMetricsCatalogTuple] and [GetQueryMetricsCatalogTuple] (schema
    and pool apart). *)
Inductive tuple : Type :=
  | DatabaseMetricsTuple (database_oid : oid_t) (txn_committed txn_aborted : Z)
      (time_stamp : Z)
  | TableMetricsTuple (database_oid table_oid : oid_t) (reads updates deletes inserts : Z)
      (time_stamp : Z)
  | IndexMetricsTuple (database_oid table_oid index_oid : oid_t) (reads deletes inserts : Z)
      (time_stamp : Z)
  | QueryMetricsTuple (name : string) (database_id : oid_t) (num_params : Z)
      (type_buf format_buf value_buf : list N) (reads updates deletes inserts : Z)
      (latency cpu : Z) (time_stamp : Z).

(** [catalog::InsertTuple(table, tuple, txn)]: the table and the tuple. *)
Definition insertion : Type := DataTable.t * tuple.

Module Sink.

Section Sink.

Variable h : Header.t.
Variable catalog : Catalog.t.

(** [GetMetricTable] (lines 319 to 327), with its three assertions. *)
Definition GetMetricTable (table_name : string) : option DataTable.t :=
  if decide (0 < Catalog.GetDatabaseCount catalog)%nat then
    catalog_database ← Catalog.GetDatabaseWithName catalog (Header.CATALOG_DATABASE_NAME h);
    Database.GetTableWithName catalog_database table_name
  else None.

Variable aggregated_stats_ : BackendStatsContext.t.
Variable time_stamp : Z.

(** The tuple of one index (lines 246 to 260). *)
Definition index_insertion (index_metrics_table : DataTable.t) (database : Database.t)
    (table : DataTable.t) (index : Index.t) : insertion :=
  let index_access :=
    IndexMetric.GetIndexAccess
      (BackendStatsContext.GetIndexMetric aggregated_stats_
         (Database.GetOid database) (DataTable.GetOid table) (Index.GetOid index)) in
  (index_metrics_table,
   IndexMetricsTuple (Database.GetOid database) (DataTable.GetOid table)
     (Index.GetOid index) (AccessMetric.GetReads index_access)
     (AccessMetric.GetDeletes index_access) (AccessMetric.GetInserts index_access)
     time_stamp).

(** [UpdateIndexMetrics] (lines 236 to 262): the insertions it makes, in
    order; the loop over the offsets visits the indexes in order. *)
Definition UpdateIndexMetrics (database : Database.t) (table : DataTable.t)
    : option (list insertion) :=
  index_metrics_table ← GetMetricTable (Header.INDEX_METRIC_NAME h);
  Some (index_insertion index_metrics_table database table <$> DataTable.indexes table).

(** One turn of the loop of [UpdateTableMetrics] (lines 216 to 232): the
    tuple of the table, then the tuples of its indexes. *)
Definition table_turn (table_metrics_table : DataTable.t) (database : Database.t)
    (table : DataTable.t) : option (list insertion) :=
  let table_access :=
    TableMetric.GetTableAccess
      (BackendStatsContext.GetTableMetric aggregated_stats_
         (Database.GetOid database) (DataTable.GetOid table)) in
  index_insertions ← UpdateIndexMetrics database table;
  Some ((table_metrics_table,
         TableMetricsTuple (Database.GetOid database) (DataTable.GetOid table)
           (AccessMetric.GetReads table_access) (AccessMetric.GetUpdates table_access)
           (AccessMetric.GetDeletes table_access) (AccessMetric.GetInserts table_access)
           time_stamp)
        :: index_insertions).

(** [UpdateTableMetrics] (lines 207 to 234) *)
Definition UpdateTableMetrics (database : Database.t) : option (list insertion) :=
  table_metrics_table ← GetMetricTable (Header.TABLE_METRIC_NAME h);
  per_table ← mapM (table_turn table_metrics_table database) (Database.tables database);
  Some (concat per_table).

(** The tuple of one completed query (lines 133 to 162), with the assertion
    on the number of parameters. *)
Definition query_tuple (query_metric : QueryMetric.t) : option tuple :=
  let table_access := QueryMetric.GetQueryAccess query_metric in
  let latency := QueryMetric.GetQueryLatency query_metric in
  let cpu_system := QueryMetric.GetSystemDuration query_metric in
  let cpu_user := QueryMetric.GetUserDuration query_metric in
  let build num_params type_buf format_buf value_buf :=
    QueryMetricsTuple (QueryMetric.GetName query_metric)
      (QueryMetric.GetDatabaseId query_metric) num_params type_buf format_buf value_buf
      (AccessMetric.GetReads table_access) (AccessMetric.GetUpdates table_access)
      (AccessMetric.GetDeletes table_access) (AccessMetric.GetInserts table_access)
      (double_to_int64 latency) (double_to_int64 (cpu_system + cpu_user)%float)
      time_stamp in
  match Header.GetQueryParams h query_metric with
  | None => Some (build 0 [] [] [])
  | Some query_params =>
      if decide (0 < QueryParams.num_params query_params) then
        Some (build (QueryParams.num_params query_params)
                (QueryParams.type_buf_copy query_params)
                (QueryParams.format_buf_copy query_params)
                (QueryParams.val_buf_copy query_params))
      else None
  end.

(** One turn of the loop of [UpdateQueryMetrics] (lines 132 to 165). *)
Definition query_turn (query_metrics_table : DataTable.t) (query_metric : QueryMetric.t)
    : option insertion :=
  t ← query_tuple query_metric; Some (query_metrics_table, t).

(** [UpdateQueryMetrics] (lines 125 to 166): one insertion for each
    completed query, dequeued from the front. *)
Definition UpdateQueryMetrics : option (list insertion) :=
  query_metrics_table ← GetMetricTable (Header.QUERY_METRIC_NAME h);
  mapM (query_turn query_metrics_table)
       (BackendStatsContext.completed_query_metrics_ aggregated_stats_).

(** One turn of the loop of [UpdateMetrics] (lines 182 to 199): the tuple
    of the database, then those of its tables and indexes. *)
Definition database_turn (database_metrics_table : DataTable.t) (database : Database.t)
    : option (list insertion) :=
  let database_metric :=
    BackendStatsContext.GetDatabaseMetric aggregated_stats_ (Database.GetOid database) in
  table_insertions ← UpdateTableMetrics database;
  Some ((database_metrics_table,
         DatabaseMetricsTuple (Database.GetOid database)
           (CounterMetric.GetCounter (DatabaseMetric.GetTxnCommitted database_metric))
           (CounterMetric.GetCounter (DatabaseMetric.GetTxnAborted database_metric))
           time_stamp)
        :: table_insertions).

(** [UpdateMetrics] (lines 168 to 205): the insertions of the one
    transaction it runs, [None] when an assertion fails on the way. *)
Definition UpdateMetrics : option (list insertion) :=
  database_metrics_table ← GetMetricTable (Header.DATABASE_METRIC_NAME h);
  per_database ← mapM (database_turn database_metrics_table) (Catalog.databases catalog);
  query_insertions ← UpdateQueryMetrics;
  Some (concat per_database ++ query_insertions).

End Sink.

End Sink.

(** The time stamp a tuple carries. *)
Definition tuple_time_stamp (t : tuple) : Z :=
  match t with
  | DatabaseMetricsTuple _ _ _ time_stamp => time_stamp
  | TableMetricsTuple _ _ _ _ _ _ time_stamp => time_stamp
  | IndexMetricsTuple _ _ _ _ _ _ time_stamp => time_stamp
  | QueryMetricsTuple _ _ _ _ _ _ _ _ _ _ _ _ time_stamp => time_stamp
  end.

(** The name of the metric table a tuple is made for. *)
Definition tuple_table_name (h : Header.t) (t : tuple) : string :=
  match t with
  | DatabaseMetricsTuple _ _ _ _ => Header.DATABASE_METRIC_NAME h
  | TableMetricsTuple _ _ _ _ _ _ _ => Header.TABLE_METRIC_NAME h
  | IndexMetricsTuple _ _ _ _ _ _ _ => Header.INDEX_METRIC_NAME h
  | QueryMetricsTuple _ _ _ _ _ _ _ _ _ _ _ _ _ => Header.QUERY_METRIC_NAME h
  end.

(** The tables and the indexes of a whole catalog, counted. *)
Definition count_tables (c : Catalog.t) : nat :=
  sum_list ((λ d, length (Database.tables d)) <$> Catalog.databases c).
Definition count_indexes (c : Catalog.t) : nat :=
  sum_list ((λ d, sum_list ((λ t, length (DataTable.indexes t)) <$> Database.tables d))
              <$> Catalog.databases c).

(** A completed query passes the assertion of [UpdateQueryMetrics]: it has
    no parameters, or a positive number of them. *)
Definition params_ok (h : Header.t) (q : QueryMetric.t) : Prop :=
  match Header.GetQueryParams h q with
  | Some p => 0 < QueryParams.num_params p
  | None => True
  end.

(** ** The cycle and the loop with what they write *)

Module Complete.

(** What a cycle appends to the durable log ([ofs_]) when it is due: the
    interval count, the accumulator (of which the code writes [ToString]),
    and the three throughput figures. The log is what the code sends to the
    stream: a failure of the stream is caught at lines 119 to 121 and changes
    nothing else of the cycle. *)
Record log_record : Type := LogRecord {
  at_interval : Z;
  logged_stats : BackendStatsContext.t;
  logged_weighted : float;
  logged_average : float;
  logged_current : float
}.

(** What the wait of one turn of the loop returns to, besides the wake: the
    catalog as it is then and the reading of the clock. *)
Record waking : Type := Waking {
  the_wake : wake;
  catalog_then : Catalog.t;
  clock_then : Z
}.

(** Where a complete run stands: the run, the transactions committed (one
    list of insertions each, oldest first) and the durable log. *)
Record outcome : Type := Outcome {
  the_run : run;
  transactions : list (list insertion);
  ofs_ : list log_record
}.

Section Complete.

Variable h : Header.t.

(** [interval_cnt % STATS_LOG_INTERVALS == 0]; the remainder has the sign of
    the dividend, and it is undefined for a zero divisor and for the least
    integer divided by -1. *)
Definition log_due (interval_cnt : Z) : option bool :=
  let n := Header.STATS_LOG_INTERVALS h in
  if n =? 0 then None
  else if (interval_cnt =? - Int64.half_modulus) && (n =? -1) then None
  else Some (Z.rem interval_cnt n =? 0).

(** [Aggregate] (lines 68 to 123) with the transaction of [UpdateMetrics]
    and the durable log: the aggregator, the locals and the figures, the
    insertions of the transaction, and the log. *)
Definition Aggregate (catalog : Catalog.t) (time_stamp : Z) (s : StatsAggregator.t)
    (l : StatsAggregator.locals) (ofs : list log_record)
    : option (StatsAggregator.t * StatsAggregator.locals * StatsAggregator.figures
              * list insertion * list log_record) :=
  let l :=
    StatsAggregator.Locals (Int64.incr (StatsAggregator.interval_cnt l))
      (StatsAggregator.alpha l) (StatsAggregator.weighted_avg_throughput l) in
  let s := StatsAggregator.merge_contexts s in
  let current := StatsAggregator.sum_txns_committed (StatsAggregator.aggregated_stats_ s) in
  let f :=
    StatsAggregator.throughput_figures (Header.STATS_AGGREGATION_INTERVAL_MS h) current
      (StatsAggregator.total_prev_txn_committed_ s) l in
  let l :=
    StatsAggregator.Locals (StatsAggregator.interval_cnt l) (StatsAggregator.alpha l)
      (StatsAggregator.moving_avg_throughput f) in
  let s := StatsAggregator.set_total_prev_txn_committed_ current s in
  txn ← Sink.UpdateMetrics h catalog (StatsAggregator.aggregated_stats_ s) time_stamp;
  let s := StatsAggregator.UpdateMetrics s in
  due ← log_due (StatsAggregator.interval_cnt l);
  let ofs :=
    if due : bool then
      ofs ++ [LogRecord (StatsAggregator.interval_cnt l) (StatsAggregator.aggregated_stats_ s)
                (StatsAggregator.weighted_avg_throughput l)
                (StatsAggregator.avg_throughput_ f) (StatsAggregator.throughput_ f)]
    else ofs in
  Some (s, l, f, txn, ofs).

(** The loop of [RunAggregator] with what its cycles write. *)
Fixpoint RunAggregator_loop (ws : list waking) (s : StatsAggregator.t)
    (l : StatsAggregator.locals) (log : list StatsAggregator.figures)
    (txns : list (list insertion)) (ofs : list log_record) : option outcome :=
  match ws with
  | [] => Some (Outcome (Run s l log false) txns ofs)
  | w :: ws =>
      s ← run_ops (during (the_wake w)) s;
      if is_timeout (status (the_wake w)) && StatsAggregator.is_aggregating_ s then
        r ← Aggregate (catalog_then w) (clock_then w) s l ofs;
        RunAggregator_loop ws r.1.1.1.1 r.1.1.1.2 (log ++ [r.1.1.2]) (txns ++ [r.1.2]) r.2
      else Some (Outcome (Run s l log true) txns ofs)
  end.

(** [RunAggregator], from the log [ofs] as the earlier runs left it. *)
Definition RunAggregator (ws : list waking) (s : StatsAggregator.t)
    (ofs : list log_record) : option outcome :=
  RunAggregator_loop ws s (StatsAggregator.Locals 0 0.4%float 0.0%float) [] [] ofs.

End Complete.

End Complete.

(** A catalog with its metric tables and one user database, and the names
    under which the metric tables are looked up. *)
Definition sample_header : Header.t :=
  Header.Build "catalog_db" "database_metric" "table_metric" "index_metric" "query_metric"
    1000 2 (λ _, None).

Definition sample_catalog : Catalog.t :=
  Catalog.Build
    [ Database.Build 0 "catalog_db"
        [ DataTable.Build 100 "database_metric" []; DataTable.Build 101 "table_metric" [];
          DataTable.Build 102 "index_metric" []; DataTable.Build 103 "query_metric" [] ];
      Database.Build 3 "d" [ DataTable.Build 7 "t" [ Index.Build 70; Index.Build 71 ] ] ].

(** Scenario B with that catalog at every wake, and one more timeout. *)
Definition sample_wakings : list Complete.waking :=
  (λ w, Complete.Waking w sample_catalog 1234)
    <$> (scenario_b_cycles ++ [ Wake [] timeout; Wake [ Accrue 2 (txns 3 1 0) ] timeout ]).

(** An insertion goes into the metric table of its kind and carries the
    time stamp of the transaction. *)
Definition well_placed (h : Header.t) (catalog : Catalog.t) (time_stamp : Z)
    (i : insertion) : Prop :=
  Sink.GetMetricTable h catalog (tuple_table_name h i.2) = Some i.1
  ∧ tuple_time_stamp i.2 = time_stamp.

(** The counters a tuple carries are those that [value] gives for its
    database, table or index. *)
Definition tuple_reports (value : counter → Z) (t : tuple) : Prop :=
  match t with
  | DatabaseMetricsTuple d committed aborted _ =>
      committed = value (TxnCommitted d) ∧ aborted = value (TxnAborted d)
  | TableMetricsTuple d t reads updates deletes inserts _ =>
      reads = value (TableReads d t) ∧ updates = value (TableUpdates d t)
      ∧ deletes = value (TableDeletes d t) ∧ inserts = value (TableInserts d t)
  | IndexMetricsTuple d t i reads deletes inserts _ =>
      reads = value (IndexReads d t i) ∧ deletes = value (IndexDeletes d t i)
      ∧ inserts = value (IndexInserts d t i)
  | QueryMetricsTuple _ _ _ _ _ _ _ _ _ _ _ _ _ => True
  end.

(** The completed queries a cycle gathers: those queued in the registered
    contexts other than the aggregation thread's own, in the order the loop
    visits them, then those queued in the history. *)
Definition gathered_queries (s : StatsAggregator.t) : list QueryMetric.t :=
  concat ((λ val : thread_id * BackendStatsContext.t,
             if decide (val.1 ≠ StatsAggregator.get_id s)
             then BackendStatsContext.completed_query_metrics_ val.2 else [])
            <$> map_to_list (StatsAggregator.backend_stats_ s))
  ++ BackendStatsContext.completed_query_metrics_ (StatsAggregator.stats_history_ s).

Definition is_query_tuple (t : tuple) : bool :=
  match t with QueryMetricsTuple _ _ _ _ _ _ _ _ _ _ _ _ _ => true | _ => false end.

(** What the durable log gets from the cycles that traced [log], [done]
    cycles having run before them: the cycle number [k] (counted from one)
    is logged when [n] divides it, with its three figures. *)
Fixpoint due_records (n : Z) (done : nat) (log : list StatsAggregator.figures)
    : list (Z * float * float * float) :=
  match log with
  | [] => []
  | f :: log =>
      let k := Z.of_nat (S done) in
      (if Z.rem k n =? 0
       then [(k, StatsAggregator.moving_avg_throughput f, StatsAggregator.avg_throughput_ f,
              StatsAggregator.throughput_ f)]
       else [])
      ++ due_records n (S done) log
  end.

Definition record_figures (e : Complete.log_record) : Z * float * float * float :=
  (Complete.at_interval e, Complete.logged_weighted e, Complete.logged_average e,
   Complete.logged_current e).

(** Scenario A with two completed queries waiting, one in the context of
    worker 1 and one in the history. *)
Definition sample_query (name : string) : QueryMetric.t :=
  QueryMetric.Build name 3 (AccessMetric.Build 1 0 0 0) 2.5%float 0.25%float 0.5%float.

Definition scenario_queries : StatsAggregator.t :=
  StatsAggregator.set_stats_history_
    (BackendStatsContext.Build ∅ ∅ ∅ [sample_query "q0"])
    (StatsAggregator.set_backend_stats_
       {[ 1%N := BackendStatsContext.Build
                   {[ 3%N := DatabaseMetric.Build (CounterMetric.Build 10)
                               (CounterMetric.Build 2) ]} ∅ ∅ [sample_query "q1"];
          9%N := txns 3 4 0 ]}
       started).

(** A step of another thread that lowers the flag. *)
Definition is_request_shutdown (o : op) : bool :=
  match o with RequestShutdown => true | _ => false end.

(** A wake after which the loop goes on when the flag was up before it: the
    wait timed out and no shutdown was requested during it. *)
Definition keeps_running (w : wake) : bool :=
  is_timeout (status w) && forallb (λ o, negb (is_request_shutdown o)) (during w).

(** What a metric tuple is about: a database, a table or an index, named
    by the identifiers the tuple carries; a query tuple is about none. *)
Inductive object : Type :=
  | DatabaseObject (database_oid : oid_t)
  | TableObject (database_oid table_oid : oid_t)
  | IndexObject (database_oid table_oid index_oid : oid_t).

Definition tuple_object (t : tuple) : option object :=
  match t with
  | DatabaseMetricsTuple d _ _ _ => Some (DatabaseObject d)
  | TableMetricsTuple d t _ _ _ _ _ => Some (TableObject d t)
  | IndexMetricsTuple d t i _ _ _ _ => Some (IndexObject d t i)
  | QueryMetricsTuple _ _ _ _ _ _ _ _ _ _ _ _ _ => None
  end.

Definition insertion_objects (rows : list insertion) : list (option object) :=
  (λ i : insertion, tuple_object i.2) <$> rows.

(** The objects of a catalog, each once, nested: a database, then each of
    its tables followed by the indexes of that table. *)
Definition table_objects (d : Database.t) (t : DataTable.t) : list object :=
  TableObject (Database.GetOid d) (DataTable.GetOid t)
  :: ((λ i, IndexObject (Database.GetOid d) (DataTable.GetOid t) (Index.GetOid i))
        <$> DataTable.indexes t).

Definition database_objects (d : Database.t) : list object :=
  DatabaseObject (Database.GetOid d) :: concat (table_objects d <$> Database.tables d).

Definition catalog_objects (c : Catalog.t) : list object :=
  concat (database_objects <$> Catalog.databases c).

(** * Properties *)

Arguments BackendStatsContext.Aggregate : simpl never.
Arguments StatsAggregator.aggregate_entry : simpl never.

(** Reads a field of an aggregator written with the setters. *)
Ltac fields :=
  cbn [StatsAggregator.stats_history_ StatsAggregator.aggregated_stats_
       StatsAggregator.backend_stats_ StatsAggregator.aggregation_interval_ms_
       StatsAggregator.thread_number_ StatsAggregator.total_prev_txn_committed_
       StatsAggregator.is_aggregating_ StatsAggregator.aggregator_thread_
       StatsAggregator.set_stats_history_ StatsAggregator.set_aggregated_stats_
       StatsAggregator.set_backend_stats_ StatsAggregator.set_thread_number_
       StatsAggregator.set_total_prev_txn_committed_ StatsAggregator.set_is_aggregating_
       StatsAggregator.set_aggregator_thread_].

(** ** Machine integers *)

Lemma wrap_in_range (z : Z) : Int64.in_range z → Int64.wrap z = z.
Proof.
  unfold Int64.in_range, Int64.wrap, Int64.half_modulus, Int64.modulus.
  intros Hz. rewrite Z.mod_small; lia.
Qed.

Lemma wrap_range (z : Z) : Int64.in_range (Int64.wrap z).
Proof.
  unfold Int64.in_range, Int64.wrap, Int64.half_modulus, Int64.modulus.
  pose proof (Z.mod_pos_bound (z + 2 ^ 63) (2 ^ 64)). lia.
Qed.

(** After [interval_cnt++] the count is one exactly when it was zero. *)
Lemma incr_is_one (n : Z) : Int64.in_range n → Int64.incr n = 1 ↔ n = 0.
Proof.
  unfold Int64.in_range, Int64.incr, Int64.add, Int64.wrap,
    Int64.half_modulus, Int64.modulus.
  intros Hn. split; [|intros ->; reflexivity].
  destruct (decide (n = 2 ^ 63 - 1)) as [->|Hne]; [vm_compute; discriminate|].
  rewrite Z.mod_small by lia. lia.
Qed.

(** ** Counters under a merge *)

Lemma lookup_merge_metrics `{Countable K} {M : Type} (f : M → M → M)
    (zero : M) (dst src : gmap K M) (i : K) :
  (∀ a, f a zero = a) → (∀ a, f zero a = a) →
  default zero (merge_metrics f dst src !! i)
  = f (default zero (dst !! i)) (default zero (src !! i)).
Proof.
  intros Hr Hl. unfold merge_metrics. rewrite lookup_union_with.
  destruct (dst !! i), (src !! i); simpl; auto.
Qed.

Lemma access_zero_r (a : AccessMetric.t) : AccessMetric.Aggregate a AccessMetric.zero = a.
Proof. destruct a. unfold AccessMetric.Aggregate. simpl. f_equal; lia. Qed.

Lemma access_zero_l (a : AccessMetric.t) : AccessMetric.Aggregate AccessMetric.zero a = a.
Proof. destruct a. unfold AccessMetric.Aggregate. simpl. f_equal; lia. Qed.

Lemma database_zero_r (a : DatabaseMetric.t) :
  DatabaseMetric.Aggregate a DatabaseMetric.zero = a.
Proof.
  destruct a as [[c] [b]]. unfold DatabaseMetric.Aggregate, CounterMetric.Aggregate.
  simpl. do 2 f_equal; lia.
Qed.

Lemma database_zero_l (a : DatabaseMetric.t) :
  DatabaseMetric.Aggregate DatabaseMetric.zero a = a.
Proof. by destruct a as [[c] [b]]. Qed.

Lemma table_zero_r (a : TableMetric.t) : TableMetric.Aggregate a TableMetric.zero = a.
Proof. destruct a. unfold TableMetric.Aggregate. simpl. by rewrite access_zero_r. Qed.

Lemma table_zero_l (a : TableMetric.t) : TableMetric.Aggregate TableMetric.zero a = a.
Proof. destruct a. unfold TableMetric.Aggregate. simpl. by rewrite access_zero_l. Qed.

Lemma index_zero_r (a : IndexMetric.t) : IndexMetric.Aggregate a IndexMetric.zero = a.
Proof. destruct a. unfold IndexMetric.Aggregate. simpl. by rewrite access_zero_r. Qed.

Lemma index_zero_l (a : IndexMetric.t) : IndexMetric.Aggregate IndexMetric.zero a = a.
Proof. destruct a. unfold IndexMetric.Aggregate. simpl. by rewrite access_zero_l. Qed.

(** Folding a context into another adds every counter. *)
Lemma read_counter_Aggregate (dst source : BackendStatsContext.t) (k : counter) :
  read_counter (BackendStatsContext.Aggregate dst source).1 k
  = read_counter dst k + read_counter source k.
Proof.
  unfold read_counter, BackendStatsContext.GetDatabaseMetric,
    BackendStatsContext.GetTableMetric, BackendStatsContext.GetIndexMetric.
  destruct k; simpl;
    first [ rewrite (lookup_merge_metrics _ _ _ _ _ database_zero_r database_zero_l)
          | rewrite (lookup_merge_metrics _ _ _ _ _ table_zero_r table_zero_l)
          | rewrite (lookup_merge_metrics _ _ _ _ _ index_zero_r index_zero_l) ];
    reflexivity.
Qed.

(** The source keeps its counters, it only loses its queue. *)
Lemma read_counter_drained (dst source : BackendStatsContext.t) (k : counter) :
  read_counter (BackendStatsContext.Aggregate dst source).2 k = read_counter source k.
Proof. by destruct k. Qed.

Lemma read_counter_empty (k : counter) : read_counter BackendStatsContext.empty k = 0.
Proof. by destruct k. Qed.

(** ** Sums over the registry *)

Lemma live_total_empty (k : counter) : live_total ∅ k = 0.
Proof. unfold live_total. by rewrite map_fold_empty. Qed.

Lemma live_total_insert (m : gmap thread_id BackendStatsContext.t) id c k :
  m !! id = None → live_total (<[id := c]> m) k = read_counter c k + live_total m k.
Proof.
  intros Hid. unfold live_total. rewrite map_fold_insert_L; [done| |done].
  intros. lia.
Qed.

Lemma live_total_delete (m : gmap thread_id BackendStatsContext.t) id c k :
  m !! id = Some c → live_total m k = read_counter c k + live_total (delete id m) k.
Proof.
  intros Hid. unfold live_total. rewrite (map_fold_delete_L _ _ id c m); [done| |done].
  intros. lia.
Qed.

Lemma live_total_delete_absent (m : gmap thread_id BackendStatsContext.t) id k :
  m !! id = None → live_total (delete id m) k = live_total m k.
Proof. intros Hid. by rewrite delete_id. Qed.

Lemma live_total_replace (m : gmap thread_id BackendStatsContext.t) id c c' k :
  m !! id = Some c →
  live_total (<[id := c']> m) k = live_total m k - read_counter c k + read_counter c' k.
Proof.
  intros Hid. rewrite <-insert_delete_eq.
  rewrite live_total_insert by apply lookup_delete_eq.
  rewrite (live_total_delete m id c k Hid). lia.
Qed.

(** The sum is the sum over the enumeration the loops visit. *)
Lemma live_total_list (m : gmap thread_id BackendStatsContext.t) k :
  live_total m k = foldr (λ val acc, read_counter val.2 k + acc) 0 (map_to_list m).
Proof. unfold live_total. rewrite map_fold_foldr. by apply foldr_ext; [intros [??]|..]. Qed.

Lemma live_total_zero (m : gmap thread_id BackendStatsContext.t) k :
  (∀ id c, m !! id = Some c → read_counter c k = 0) → live_total m k = 0.
Proof.
  induction m as [|id c m Hid IH] using map_ind; intros Hz.
  - apply live_total_empty.
  - rewrite live_total_insert by done.
    rewrite (Hz id c) by apply lookup_insert_eq.
    rewrite IH; [done|]. intros j d Hj. apply (Hz j d).
    rewrite lookup_insert_ne; [done|]. intros ->. congruence.
Qed.

(** The sum only depends on the counter each identity holds. *)
Lemma live_total_ext (m1 m2 : gmap thread_id BackendStatsContext.t) k :
  (∀ id, from_option (λ c, read_counter c k) 0 (m1 !! id)
         = from_option (λ c, read_counter c k) 0 (m2 !! id)) →
  live_total m1 k = live_total m2 k.
Proof.
  revert m2. induction m1 as [|id c m1 Hid IH] using map_ind; intros m2 He.
  - rewrite live_total_empty. symmetry. apply live_total_zero.
    intros id c Hc. specialize (He id). rewrite lookup_empty, Hc in He. by simpl in He.
  - rewrite live_total_insert by done.
    pose proof (He id) as Hi. rewrite lookup_insert_eq in Hi. simpl in Hi.
    assert (∀ j, j ≠ id →
              from_option (λ c, read_counter c k) 0 (m1 !! j)
              = from_option (λ c, read_counter c k) 0 (m2 !! j)) as Hrest.
    { intros j Hj. rewrite <-(He j). by rewrite lookup_insert_ne. }
    destruct (m2 !! id) as [c2|] eqn:H2; simpl in Hi.
    + rewrite (live_total_delete m2 id c2 k H2), Hi. f_equal.
      apply IH. intros j. destruct (decide (j = id)) as [->|Hj].
      * by rewrite Hid, lookup_delete_eq.
      * rewrite lookup_delete_ne by done. by apply Hrest.
    + rewrite Hi. simpl. apply IH. intros j. destruct (decide (j = id)) as [->|Hj].
      * by rewrite Hid, H2.
      * by apply Hrest.
Qed.

(** ** The merge of a cycle *)

Lemma read_counter_visited this_id id c k :
  read_counter (visited this_id id c) k = read_counter c k.
Proof. unfold visited. case_decide; [by destruct k|done]. Qed.

Lemma aggregate_entry_other this_id acc (reg : gmap thread_id BackendStatsContext.t) id c :
  id ≠ this_id →
  StatsAggregator.aggregate_entry this_id (acc, reg) (id, c)
  = ((BackendStatsContext.Aggregate acc c).1, <[id := drained c]> reg).
Proof. intros Hne. unfold StatsAggregator.aggregate_entry. simpl. by rewrite decide_True. Qed.

Lemma aggregate_entry_own this_id acc (reg : gmap thread_id BackendStatsContext.t) c :
  StatsAggregator.aggregate_entry this_id (acc, reg) (this_id, c) = (acc, reg).
Proof.
  unfold StatsAggregator.aggregate_entry. simpl. by rewrite decide_False by (intros ?; done).
Qed.

(** The accumulator after the loop over the entries [l]. *)
Lemma aggregate_entries_counters this_id (l : list (thread_id * BackendStatsContext.t))
    acc reg k :
  read_counter (foldl (StatsAggregator.aggregate_entry this_id) (acc, reg) l).1 k
  = read_counter acc k
    + foldr (λ val a, (if decide (val.1 ≠ this_id) then read_counter val.2 k else 0) + a) 0 l.
Proof.
  revert acc reg. induction l as [|[id c] l IH]; intros acc reg; simpl; [lia|].
  destruct (decide (id = this_id)) as [->|Hne].
  - rewrite aggregate_entry_own, IH. by rewrite decide_False by (intros ?; done).
  - rewrite aggregate_entry_other, IH, read_counter_Aggregate by done.
    rewrite decide_True by done. lia.
Qed.

(** The registered contexts after the loop over the entries [l]. *)
Lemma aggregate_entries_registry this_id (l : list (thread_id * BackendStatsContext.t))
    acc (reg : gmap thread_id BackendStatsContext.t) id :
  NoDup l.*1 →
  (foldl (StatsAggregator.aggregate_entry this_id) (acc, reg) l).2 !! id
  = match (list_to_map l : gmap thread_id BackendStatsContext.t) !! id with
    | Some c => if decide (id ≠ this_id) then Some (drained c) else reg !! id
    | None => reg !! id
    end.
Proof.
  revert acc reg. induction l as [|[i c] l IH]; intros acc reg Hnd; simpl; [done|].
  apply NoDup_cons in Hnd as [Hi Hnd].
  destruct (decide (i = this_id)) as [->|Hother].
  - rewrite aggregate_entry_own, IH by done.
    destruct (decide (id = this_id)) as [->|Hne].
    + rewrite lookup_insert_eq, (not_elem_of_list_to_map_1 l this_id Hi).
      by rewrite decide_False by (intros ?; done).
    + by rewrite lookup_insert_ne.
  - rewrite aggregate_entry_other, IH by done.
    destruct (decide (id = i)) as [->|Hne].
    + rewrite !lookup_insert_eq, (not_elem_of_list_to_map_1 l i Hi).
      by rewrite decide_True.
    + by rewrite !lookup_insert_ne.
Qed.

(** Skipping the aggregator's identity in the loop is summing over the
    registry without it. *)
Lemma skip_own_total this_id (m : gmap thread_id BackendStatsContext.t) k :
  foldr (λ val a, (if decide (val.1 ≠ this_id) then read_counter val.2 k else 0) + a) 0
        (map_to_list m)
  = live_total (delete this_id m) k.
Proof.
  set (f := λ (val : thread_id * BackendStatsContext.t) (a : Z),
              (if decide (val.1 ≠ this_id) then read_counter val.2 k else 0) + a).
  assert (∀ l : list (thread_id * BackendStatsContext.t),
            Forall (λ val, val.1 ≠ this_id) l →
            foldr f 0 l = foldr (λ val a, read_counter val.2 k + a) 0 l) as Hothers.
  { induction 1 as [|[i c] l Hi _ IH]; simpl; [done|].
    unfold f at 1. simpl in *. rewrite decide_True by done. by rewrite IH. }
  assert (foldr f 0 (map_to_list (delete this_id m)) = live_total (delete this_id m) k)
    as Hdel.
  { rewrite live_total_list. apply Hothers, Forall_forall. intros [i c] Hic.
    apply elem_of_map_to_list in Hic. simpl. intros ->.
    by rewrite lookup_delete_eq in Hic. }
  destruct (m !! this_id) as [own|] eqn:Hown.
  - rewrite <-Hdel.
    transitivity (foldr f 0 ((this_id, own) :: map_to_list (delete this_id m))).
    + apply (foldr_permutation_proper (=) f 0); [|by rewrite map_to_list_delete].
      intros. unfold f. lia.
    + simpl. unfold f at 1. simpl. by rewrite decide_False by (intros ?; done).
  - rewrite <-Hdel. by rewrite delete_id.
Qed.

Lemma merge_contexts_registry (s : StatsAggregator.t) id :
  StatsAggregator.backend_stats_ (StatsAggregator.merge_contexts s) !! id
  = visited (StatsAggregator.get_id s) id <$> StatsAggregator.backend_stats_ s !! id.
Proof.
  unfold StatsAggregator.merge_contexts. simpl.
  rewrite aggregate_entries_registry by apply NoDup_fst_map_to_list.
  rewrite list_to_map_to_list. unfold visited.
  destruct (StatsAggregator.backend_stats_ s !! id) as [c|] eqn:Hc; simpl; [|done].
  by case_decide.
Qed.

Lemma merge_contexts_aggregated (s : StatsAggregator.t) k :
  read_counter (StatsAggregator.aggregated_stats_ (StatsAggregator.merge_contexts s)) k
  = read_counter (StatsAggregator.stats_history_ s) k
    + live_total (delete (StatsAggregator.get_id s) (StatsAggregator.backend_stats_ s)) k.
Proof.
  change (StatsAggregator.aggregated_stats_ (StatsAggregator.merge_contexts s))
    with (BackendStatsContext.Aggregate
            (foldl (StatsAggregator.aggregate_entry (StatsAggregator.get_id s))
               (BackendStatsContext.Reset (StatsAggregator.aggregated_stats_ s),
                StatsAggregator.backend_stats_ s)
               (map_to_list (StatsAggregator.backend_stats_ s))).1
            (StatsAggregator.stats_history_ s)).1.
  rewrite read_counter_Aggregate, aggregate_entries_counters, skip_own_total.
  unfold BackendStatsContext.Reset. rewrite read_counter_empty. lia.
Qed.

Lemma merge_contexts_history (s : StatsAggregator.t) :
  StatsAggregator.stats_history_ (StatsAggregator.merge_contexts s)
  = drained (StatsAggregator.stats_history_ s).
Proof. reflexivity. Qed.

Lemma merge_contexts_live_total (s : StatsAggregator.t) k :
  live_total (StatsAggregator.backend_stats_ (StatsAggregator.merge_contexts s)) k
  = live_total (StatsAggregator.backend_stats_ s) k.
Proof.
  apply live_total_ext. intros id. rewrite merge_contexts_registry.
  destruct (StatsAggregator.backend_stats_ s !! id); simpl; [|done].
  apply read_counter_visited.
Qed.

Lemma merge_contexts_size (s : StatsAggregator.t) :
  size (StatsAggregator.backend_stats_ (StatsAggregator.merge_contexts s))
  = size (StatsAggregator.backend_stats_ s).
Proof.
  rewrite <-!size_dom. f_equal. apply set_eq. intros id.
  rewrite !elem_of_dom, merge_contexts_registry. apply fmap_is_Some.
Qed.

(** ** The metric tables under a merge *)

Section MergeMetrics.

Context `{Countable K} {M : Type} (f : M → M → M).
Hypothesis f_comm : ∀ a b, f a b = f b a.
Hypothesis f_assoc : ∀ a b c, f a (f b c) = f (f a b) c.

Lemma merge_metrics_comm (a b : gmap K M) : merge_metrics f a b = merge_metrics f b a.
Proof.
  apply map_eq. intros i. unfold merge_metrics. rewrite !lookup_union_with.
  destruct (a !! i), (b !! i); simpl; [|done..]. by rewrite f_comm.
Qed.

Lemma merge_metrics_assoc (a b c : gmap K M) :
  merge_metrics f a (merge_metrics f b c) = merge_metrics f (merge_metrics f a b) c.
Proof.
  apply map_eq. intros i. unfold merge_metrics. rewrite !lookup_union_with.
  destruct (a !! i), (b !! i), (c !! i); simpl; [|done..]. by rewrite f_assoc.
Qed.

Lemma merge_metrics_empty_l (a : gmap K M) : merge_metrics f ∅ a = a.
Proof.
  apply map_eq. intros i. unfold merge_metrics. rewrite lookup_union_with, lookup_empty.
  by destruct (a !! i).
Qed.

End MergeMetrics.

Lemma access_comm (a b : AccessMetric.t) : AccessMetric.Aggregate a b = AccessMetric.Aggregate b a.
Proof. unfold AccessMetric.Aggregate. f_equal; lia. Qed.

Lemma access_assoc (a b c : AccessMetric.t) :
  AccessMetric.Aggregate a (AccessMetric.Aggregate b c)
  = AccessMetric.Aggregate (AccessMetric.Aggregate a b) c.
Proof. unfold AccessMetric.Aggregate. simpl. f_equal; lia. Qed.

Lemma database_comm (a b : DatabaseMetric.t) :
  DatabaseMetric.Aggregate a b = DatabaseMetric.Aggregate b a.
Proof. unfold DatabaseMetric.Aggregate, CounterMetric.Aggregate. do 2 f_equal; lia. Qed.

Lemma database_assoc (a b c : DatabaseMetric.t) :
  DatabaseMetric.Aggregate a (DatabaseMetric.Aggregate b c)
  = DatabaseMetric.Aggregate (DatabaseMetric.Aggregate a b) c.
Proof. unfold DatabaseMetric.Aggregate, CounterMetric.Aggregate. simpl. do 2 f_equal; lia. Qed.

Lemma table_comm (a b : TableMetric.t) : TableMetric.Aggregate a b = TableMetric.Aggregate b a.
Proof. unfold TableMetric.Aggregate. by rewrite access_comm. Qed.

Lemma table_assoc (a b c : TableMetric.t) :
  TableMetric.Aggregate a (TableMetric.Aggregate b c)
  = TableMetric.Aggregate (TableMetric.Aggregate a b) c.
Proof. unfold TableMetric.Aggregate. simpl. by rewrite access_assoc. Qed.

Lemma index_comm (a b : IndexMetric.t) : IndexMetric.Aggregate a b = IndexMetric.Aggregate b a.
Proof. unfold IndexMetric.Aggregate. by rewrite access_comm. Qed.

Lemma index_assoc (a b c : IndexMetric.t) :
  IndexMetric.Aggregate a (IndexMetric.Aggregate b c)
  = IndexMetric.Aggregate (IndexMetric.Aggregate a b) c.
Proof. unfold IndexMetric.Aggregate. simpl. by rewrite access_assoc. Qed.

Lemma merge_tables_comm a b : merge_tables a b = merge_tables b a.
Proof.
  unfold merge_tables.
  rewrite (merge_metrics_comm _ database_comm a.1.1), (merge_metrics_comm _ table_comm a.1.2),
    (merge_metrics_comm _ index_comm a.2).
  done.
Qed.

Lemma merge_tables_assoc a b c :
  merge_tables a (merge_tables b c) = merge_tables (merge_tables a b) c.
Proof.
  unfold merge_tables. cbn [fst snd].
  rewrite (merge_metrics_assoc _ database_assoc), (merge_metrics_assoc _ table_assoc),
    (merge_metrics_assoc _ index_assoc).
  done.
Qed.

Lemma merge_tables_empty_l a : merge_tables (tables BackendStatsContext.empty) a = a.
Proof.
  destruct a as [[d t] i]. unfold merge_tables, tables. simpl.
  by rewrite !merge_metrics_empty_l.
Qed.

Lemma tables_Aggregate dst source :
  tables (BackendStatsContext.Aggregate dst source).1 = merge_tables (tables dst) (tables source).
Proof. reflexivity. Qed.

Lemma tables_drained c : tables (drained c) = tables c.
Proof. reflexivity. Qed.

(** The tables of the accumulator after the loop over the entries [l]. *)
Lemma aggregate_entries_tables this_id (l : list (thread_id * BackendStatsContext.t)) acc reg :
  tables (foldl (StatsAggregator.aggregate_entry this_id) (acc, reg) l).1
  = merge_tables (tables acc)
      (foldr (λ val a, merge_tables
                         (if decide (val.1 ≠ this_id) then tables val.2
                          else tables BackendStatsContext.empty) a)
             (tables BackendStatsContext.empty) l).
Proof.
  revert acc reg. induction l as [|[id c] l IH]; intros acc reg; cbn [foldl foldr fst snd].
  - by rewrite merge_tables_comm, merge_tables_empty_l.
  - destruct (decide (id = this_id)) as [->|Hne].
    + rewrite aggregate_entry_own, IH. rewrite decide_False by (intros ?; done).
      by rewrite merge_tables_empty_l.
    + rewrite aggregate_entry_other, IH, tables_Aggregate by done.
      rewrite decide_True by done. by rewrite merge_tables_assoc.
Qed.

Lemma skip_own_tables this_id (m : gmap thread_id BackendStatsContext.t) :
  foldr (λ val a, merge_tables
                    (if decide (val.1 ≠ this_id) then tables val.2
                     else tables BackendStatsContext.empty) a)
        (tables BackendStatsContext.empty) (map_to_list m)
  = foldr (λ val a, merge_tables (tables val.2) a)
          (tables BackendStatsContext.empty) (map_to_list (delete this_id m)).
Proof.
  set (f := λ (val : thread_id * BackendStatsContext.t) a,
              merge_tables (if decide (val.1 ≠ this_id) then tables val.2
                            else tables BackendStatsContext.empty) a).
  assert (∀ l : list (thread_id * BackendStatsContext.t),
            Forall (λ val, val.1 ≠ this_id) l →
            foldr f (tables BackendStatsContext.empty) l
            = foldr (λ val a, merge_tables (tables val.2) a)
                    (tables BackendStatsContext.empty) l) as Hothers.
  { induction 1 as [|[i c] l Hi _ IH]; cbn [foldr]; [done|].
    unfold f at 1. cbn [fst snd] in *. rewrite decide_True by done. by rewrite IH. }
  rewrite <-Hothers.
  2:{ apply Forall_forall. intros [i c] Hic. apply elem_of_map_to_list in Hic.
      cbn [fst]. intros ->. by rewrite lookup_delete_eq in Hic. }
  destruct (m !! this_id) as [own|] eqn:Hown; [|by rewrite delete_id].
  transitivity (foldr f (tables BackendStatsContext.empty)
                  ((this_id, own) :: map_to_list (delete this_id m))).
  - apply (foldr_permutation_proper (=) f (tables BackendStatsContext.empty));
      [|by rewrite map_to_list_delete].
    intros a1 a2 b. unfold f.
    by rewrite !merge_tables_assoc, (merge_tables_comm (if decide (a1.1 ≠ this_id) then _ else _)).
  - cbn [foldr]. unfold f at 1. cbn [fst snd].
    rewrite decide_False by (intros ?; done). by rewrite merge_tables_empty_l.
Qed.

Lemma spec_accumulator_tables (s : StatsAggregator.t) :
  tables (spec_accumulator s)
  = merge_tables (tables (StatsAggregator.stats_history_ s))
      (foldr (λ val a, merge_tables (tables val.2) a) (tables BackendStatsContext.empty)
         (map_to_list (delete (StatsAggregator.get_id s) (StatsAggregator.backend_stats_ s)))).
Proof.
  unfold spec_accumulator.
  induction (map_to_list (delete (StatsAggregator.get_id s) (StatsAggregator.backend_stats_ s)))
    as [|[id c] l IH]; cbn [foldr snd].
  - by rewrite merge_tables_comm, merge_tables_empty_l.
  - rewrite tables_Aggregate, IH. rewrite <-merge_tables_assoc. f_equal.
    apply merge_tables_comm.
Qed.

Lemma merge_contexts_tables (s : StatsAggregator.t) :
  tables (StatsAggregator.aggregated_stats_ (StatsAggregator.merge_contexts s))
  = tables (spec_accumulator s).
Proof.
  change (StatsAggregator.aggregated_stats_ (StatsAggregator.merge_contexts s))
    with (BackendStatsContext.Aggregate
            (foldl (StatsAggregator.aggregate_entry (StatsAggregator.get_id s))
               (BackendStatsContext.Reset (StatsAggregator.aggregated_stats_ s),
                StatsAggregator.backend_stats_ s)
               (map_to_list (StatsAggregator.backend_stats_ s))).1
            (StatsAggregator.stats_history_ s)).1.
  rewrite tables_Aggregate, aggregate_entries_tables, skip_own_tables.
  unfold BackendStatsContext.Reset. rewrite merge_tables_empty_l.
  rewrite spec_accumulator_tables. apply merge_tables_comm.
Qed.

(** ** What a cycle leaves alone *)

Section CycleFacts.

Variable STATS_AGGREGATION_INTERVAL_MS : Z.

Local Abbreviation Aggregate := (StatsAggregator.Aggregate STATS_AGGREGATION_INTERVAL_MS).

Lemma Aggregate_registry s l :
  StatsAggregator.backend_stats_ (Aggregate s l).1.1
  = StatsAggregator.backend_stats_ (StatsAggregator.merge_contexts s).
Proof. reflexivity. Qed.

Lemma Aggregate_history s l :
  StatsAggregator.stats_history_ (Aggregate s l).1.1
  = drained (StatsAggregator.stats_history_ s).
Proof. reflexivity. Qed.

Lemma Aggregate_thread_number s l :
  StatsAggregator.thread_number_ (Aggregate s l).1.1 = StatsAggregator.thread_number_ s.
Proof. reflexivity. Qed.

Lemma Aggregate_is_aggregating s l :
  StatsAggregator.is_aggregating_ (Aggregate s l).1.1 = StatsAggregator.is_aggregating_ s.
Proof. reflexivity. Qed.

Lemma Aggregate_aggregated_counters s l k :
  read_counter (StatsAggregator.aggregated_stats_ (Aggregate s l).1.1) k
  = read_counter (StatsAggregator.aggregated_stats_ (StatsAggregator.merge_contexts s)) k.
Proof. by destruct k. Qed.

Lemma Aggregate_held_total s l k :
  held_total (Aggregate s l).1.1 k = held_total s k.
Proof.
  unfold held_total. rewrite Aggregate_registry, Aggregate_history.
  rewrite merge_contexts_live_total. unfold drained. by rewrite read_counter_drained.
Qed.

Lemma Aggregate_count_matches s l :
  count_matches s → count_matches (Aggregate s l).1.1.
Proof.
  unfold count_matches. rewrite Aggregate_thread_number, Aggregate_registry.
  by rewrite merge_contexts_size.
Qed.

End CycleFacts.

(** ** Registration *)

Lemma RegisterContext_Some id_ context_ s s' :
  StatsAggregator.RegisterContext id_ context_ s = Some s' →
  StatsAggregator.backend_stats_ s !! id_ = None
  ∧ s' = StatsAggregator.set_backend_stats_
           (<[id_ := context_]> (StatsAggregator.backend_stats_ s))
           (StatsAggregator.set_thread_number_ (StatsAggregator.thread_number_ s + 1) s).
Proof.
  unfold StatsAggregator.RegisterContext.
  destruct (StatsAggregator.backend_stats_ s !! id_); [done|].
  intros [= <-]. done.
Qed.

Lemma RegisterContext_None_Some id_ context_ s :
  StatsAggregator.backend_stats_ s !! id_ = None →
  StatsAggregator.RegisterContext id_ context_ s
  = Some (StatsAggregator.set_backend_stats_
            (<[id_ := context_]> (StatsAggregator.backend_stats_ s))
            (StatsAggregator.set_thread_number_ (StatsAggregator.thread_number_ s + 1) s)).
Proof. intros Habsent. unfold StatsAggregator.RegisterContext. by rewrite Habsent. Qed.

Lemma UnregisterContext_absent (s : StatsAggregator.t) id :
  StatsAggregator.backend_stats_ s !! id = None → StatsAggregator.UnregisterContext id s = s.
Proof. intros Hid. unfold StatsAggregator.UnregisterContext. by rewrite Hid. Qed.

Lemma UnregisterContext_present (s : StatsAggregator.t) id context :
  StatsAggregator.backend_stats_ s !! id = Some context →
  StatsAggregator.UnregisterContext id s
  = StatsAggregator.set_thread_number_ (StatsAggregator.thread_number_ s - 1)
      (StatsAggregator.set_backend_stats_ (delete id (StatsAggregator.backend_stats_ s))
         (StatsAggregator.set_stats_history_
            (BackendStatsContext.Aggregate (StatsAggregator.stats_history_ s) context).1 s)).
Proof. intros Hid. unfold StatsAggregator.UnregisterContext. by rewrite Hid. Qed.

(** C5. Registering an identity that the registry does not hold passes the
    assertion (the call returns), inserts the association and adds one to the
    live-thread count; no other field changes. *)
Theorem RegisterContext_absent (s : StatsAggregator.t) (id_ : thread_id)
    (context_ : BackendStatsContext.t) :
  StatsAggregator.backend_stats_ s !! id_ = None →
  ∃ s', StatsAggregator.RegisterContext id_ context_ s = Some s'
    ∧ StatsAggregator.backend_stats_ s' = <[id_ := context_]> (StatsAggregator.backend_stats_ s)
    ∧ StatsAggregator.backend_stats_ s' !! id_ = Some context_
    ∧ StatsAggregator.thread_number_ s' = StatsAggregator.thread_number_ s + 1
    ∧ StatsAggregator.stats_history_ s' = StatsAggregator.stats_history_ s
    ∧ StatsAggregator.aggregated_stats_ s' = StatsAggregator.aggregated_stats_ s
    ∧ StatsAggregator.total_prev_txn_committed_ s' = StatsAggregator.total_prev_txn_committed_ s
    ∧ StatsAggregator.is_aggregating_ s' = StatsAggregator.is_aggregating_ s
    ∧ StatsAggregator.aggregator_thread_ s' = StatsAggregator.aggregator_thread_ s.
Proof.
  intros Habsent. rewrite (RegisterContext_None_Some _ _ _ Habsent).
  eexists. split; [reflexivity|]. fields. rewrite lookup_insert_eq. by repeat split.
Qed.

Lemma RegisterContext_absent_witness :
  ∃ s', StatsAggregator.RegisterContext 1 BackendStatsContext.empty
          (StatsAggregator.initial 1000) = Some s'
    ∧ StatsAggregator.backend_stats_ s'
      = <[1%N := BackendStatsContext.empty]>
          (StatsAggregator.backend_stats_ (StatsAggregator.initial 1000))
    ∧ StatsAggregator.backend_stats_ s' !! 1%N = Some BackendStatsContext.empty
    ∧ StatsAggregator.thread_number_ s'
      = StatsAggregator.thread_number_ (StatsAggregator.initial 1000) + 1
    ∧ StatsAggregator.stats_history_ s'
      = StatsAggregator.stats_history_ (StatsAggregator.initial 1000)
    ∧ StatsAggregator.aggregated_stats_ s'
      = StatsAggregator.aggregated_stats_ (StatsAggregator.initial 1000)
    ∧ StatsAggregator.total_prev_txn_committed_ s'
      = StatsAggregator.total_prev_txn_committed_ (StatsAggregator.initial 1000)
    ∧ StatsAggregator.is_aggregating_ s'
      = StatsAggregator.is_aggregating_ (StatsAggregator.initial 1000)
    ∧ StatsAggregator.aggregator_thread_ s'
      = StatsAggregator.aggregator_thread_ (StatsAggregator.initial 1000).
Proof.
  apply (RegisterContext_absent (StatsAggregator.initial 1000) 1 BackendStatsContext.empty).
  reflexivity.
Defined.

(** The assertion fails on an identity that is registered. *)
Lemma RegisterContext_present (s : StatsAggregator.t) id_ context_ :
  is_Some (StatsAggregator.backend_stats_ s !! id_) →
  StatsAggregator.RegisterContext id_ context_ s = None.
Proof. intros [c Hc]. unfold StatsAggregator.RegisterContext. by rewrite Hc. Qed.

(** C6. Unregistering an identity that the registry does not hold changes
    nothing. Unregistering one that it holds folds the context into the
    history (every counter of the context is added to the history's), removes
    the association and takes one off the live-thread count; no other field
    changes. *)
Theorem UnregisterContext_cases (s : StatsAggregator.t) (id : thread_id) :
  match StatsAggregator.backend_stats_ s !! id with
  | None => StatsAggregator.UnregisterContext id s = s
  | Some context =>
      let s' := StatsAggregator.UnregisterContext id s in
      StatsAggregator.stats_history_ s'
      = (BackendStatsContext.Aggregate (StatsAggregator.stats_history_ s) context).1
      ∧ (∀ k, read_counter (StatsAggregator.stats_history_ s') k
              = read_counter (StatsAggregator.stats_history_ s) k + read_counter context k)
      ∧ StatsAggregator.backend_stats_ s' = delete id (StatsAggregator.backend_stats_ s)
      ∧ StatsAggregator.backend_stats_ s' !! id = None
      ∧ StatsAggregator.thread_number_ s' = StatsAggregator.thread_number_ s - 1
      ∧ StatsAggregator.aggregated_stats_ s' = StatsAggregator.aggregated_stats_ s
      ∧ StatsAggregator.total_prev_txn_committed_ s' = StatsAggregator.total_prev_txn_committed_ s
      ∧ StatsAggregator.is_aggregating_ s' = StatsAggregator.is_aggregating_ s
      ∧ StatsAggregator.aggregator_thread_ s' = StatsAggregator.aggregator_thread_ s
  end.
Proof.
  destruct (StatsAggregator.backend_stats_ s !! id) as [context|] eqn:Hid.
  - rewrite (UnregisterContext_present _ _ _ Hid). cbv zeta. fields.
    rewrite lookup_delete_eq. repeat split. intros k. apply read_counter_Aggregate.
  - by apply UnregisterContext_absent.
Qed.

(** ** The steps of the other threads *)

Lemma apply_op_held_total o s s' k :
  apply_op o s = Some s' → held_total s' k = held_total s k + contribution (Step o) k.
Proof.
  destruct o as [id_ context_|id|id activity|]; cbn [apply_op contribution]; intros Hs.
  - apply RegisterContext_Some in Hs as [Habsent ->]. unfold held_total. fields.
    rewrite live_total_insert by done. lia.
  - apply (inj Some) in Hs. subst s'. unfold held_total.
    destruct (StatsAggregator.backend_stats_ s !! id) as [context|] eqn:Hid.
    + rewrite (UnregisterContext_present _ _ _ Hid). fields.
      rewrite read_counter_Aggregate, (live_total_delete _ id context k Hid). lia.
    + rewrite (UnregisterContext_absent _ _ Hid). lia.
  - unfold record_activity in Hs.
    destruct (StatsAggregator.backend_stats_ s !! id) as [context|] eqn:Hid; [|done].
    cbn [mbind option_bind] in Hs. apply (inj Some) in Hs. subst s'.
    unfold held_total. fields.
    rewrite (live_total_replace _ id context _ k Hid), read_counter_Aggregate. lia.
  - injection Hs as <-. unfold held_total. fields. lia.
Qed.

Lemma size_delete_present (m : gmap thread_id BackendStatsContext.t) id c :
  m !! id = Some c → size m = S (size (delete id m)).
Proof.
  intros Hid. rewrite <-(insert_delete_id m id c) at 1 by done.
  by rewrite map_size_insert_None by apply lookup_delete_eq.
Qed.

Lemma apply_op_count_matches o s s' :
  apply_op o s = Some s' → count_matches s → count_matches s'.
Proof.
  unfold count_matches.
  destruct o as [id_ context_|id|id activity|]; simpl; intros Hs Hcount.
  - apply RegisterContext_Some in Hs as [Habsent ->]. simpl.
    rewrite map_size_insert_None by done. lia.
  - apply (inj Some) in Hs. subst s'.
    destruct (StatsAggregator.backend_stats_ s !! id) as [context|] eqn:Hid.
    + rewrite (UnregisterContext_present _ _ _ Hid). fields.
      pose proof (size_delete_present _ id context Hid). lia.
    + by rewrite (UnregisterContext_absent _ _ Hid).
  - unfold record_activity in Hs.
    destruct (StatsAggregator.backend_stats_ s !! id) as [context|] eqn:Hid; [|done].
    injection Hs as <-. simpl.
    by rewrite map_size_insert_Some by (by eexists).
  - by injection Hs as <-.
Qed.

Lemma apply_op_total_prev o s s' :
  apply_op o s = Some s' →
  StatsAggregator.total_prev_txn_committed_ s' = StatsAggregator.total_prev_txn_committed_ s.
Proof.
  destruct o as [id_ context_|id|id activity|]; simpl; intros Hs.
  - by apply RegisterContext_Some in Hs as [_ ->].
  - apply (inj Some) in Hs. subst s'.
    destruct (StatsAggregator.backend_stats_ s !! id) as [context|] eqn:Hid.
    + by rewrite (UnregisterContext_present _ _ _ Hid).
    + by rewrite (UnregisterContext_absent _ _ Hid).
  - unfold record_activity in Hs.
    destruct (StatsAggregator.backend_stats_ s !! id); [|done]. by injection Hs as <-.
  - by injection Hs as <-.
Qed.

Lemma run_ops_total_prev ops s s' :
  run_ops ops s = Some s' →
  StatsAggregator.total_prev_txn_committed_ s' = StatsAggregator.total_prev_txn_committed_ s.
Proof.
  revert s. induction ops as [|o ops IH]; simpl; intros s Hs; [by injection Hs as <-|].
  destruct (apply_op o s) as [s1|] eqn:Ho; [|done]. simpl in Hs.
  rewrite (IH _ Hs). by apply apply_op_total_prev in Ho.
Qed.

(** ** Conservation *)

Lemma run_events_held_total M es w w' k :
  run_events M es w = Some w' →
  held_total w'.1 k = held_total w.1 k + lifetime_total es k.
Proof.
  revert w. induction es as [|e es IH]; intros w Hw.
  - injection Hw as <-. unfold lifetime_total. simpl. lia.
  - cbn [run_events] in Hw.
    destruct (apply_event M e w) as [w1|] eqn:He; [|done].
    cbn [mbind option_bind] in Hw. rewrite (IH _ Hw).
    change (lifetime_total (e :: es) k) with (contribution e k + lifetime_total es k).
    enough (held_total w1.1 k = held_total w.1 k + contribution e k) by lia.
    destruct e as [o|]; cbn [apply_event] in He.
    + destruct (apply_op o w.1) as [s1|] eqn:Ho; [|done].
      cbn [mbind option_bind] in He. apply (inj Some) in He. subst w1.
      apply (apply_op_held_total _ _ _ k Ho).
    + apply (inj Some) in He. subst w1. rewrite Aggregate_held_total.
      cbn [contribution]. lia.
Qed.

Lemma construct_Some aggregation_interval_ms spawned s :
  StatsAggregator.construct aggregation_interval_ms spawned = Some s →
  s = StatsAggregator.set_is_aggregating_ true
        (StatsAggregator.set_aggregator_thread_ (Npos spawned)
           (StatsAggregator.initial aggregation_interval_ms)).
Proof. by intros [= <-]. Qed.

(** C1. Along any interleaving of registrations, unregistrations, worker
    activity and aggregation cycles that starts from the constructed
    aggregator, every counter summed over the history and the registered
    contexts equals what the workers have counted in total: the contents of
    the contexts when they registered and all the activity recorded since. *)
Theorem conservation (M aggregation_interval_ms : Z) (spawned : positive)
    (s0 : StatsAggregator.t) (l : StatsAggregator.locals)
    (es : list event) (w : StatsAggregator.t * StatsAggregator.locals) (k : counter) :
  StatsAggregator.construct aggregation_interval_ms spawned = Some s0 →
  run_events M es (s0, l) = Some w →
  read_counter (StatsAggregator.stats_history_ w.1) k
  + live_total (StatsAggregator.backend_stats_ w.1) k
  = lifetime_total es k.
Proof.
  intros Hs0 Hw. apply construct_Some in Hs0. subst s0.
  pose proof (run_events_held_total M es _ w k Hw) as Hheld.
  unfold held_total in Hheld. simpl in Hheld.
  rewrite read_counter_empty, live_total_empty in Hheld. lia.
Qed.

Lemma conservation_witness :
  ∃ w, run_events 1000 scenario_b
         (started, StatsAggregator.Locals 0 0.4%float 0.0%float) = Some w
    ∧ read_counter (StatsAggregator.stats_history_ w.1) (TxnCommitted 3)
      + live_total (StatsAggregator.backend_stats_ w.1) (TxnCommitted 3)
      = lifetime_total scenario_b (TxnCommitted 3)
    ∧ lifetime_total scenario_b (TxnCommitted 3) = 15.
Proof.
  eexists. split; [vm_compute; reflexivity|]. split; [|reflexivity].
  apply (conservation 1000 1000 9 started
           (StatsAggregator.Locals 0 0.4%float 0.0%float) scenario_b).
  - reflexivity.
  - vm_compute. reflexivity.
Defined.

(** ** The live-thread count *)

Lemma run_events_count_matches M es w w' :
  run_events M es w = Some w' → count_matches w.1 → count_matches w'.1.
Proof.
  revert w. induction es as [|e es IH]; intros w Hw Hcount.
  - by injection Hw as <-.
  - cbn [run_events] in Hw.
    destruct (apply_event M e w) as [w1|] eqn:He; [|done].
    cbn [mbind option_bind] in Hw. apply (IH _ Hw).
    destruct e as [o|]; cbn [apply_event] in He.
    + destruct (apply_op o w.1) as [s1|] eqn:Ho; [|done].
      cbn [mbind option_bind] in He. apply (inj Some) in He. subst w1.
      by apply (apply_op_count_matches o w.1).
    + apply (inj Some) in He. subst w1. by apply Aggregate_count_matches.
Qed.

(** C10. The live-thread count is the number of entries of the registry:
    it is so in the aggregator as constructed, a registration of an absent
    identity keeps it so, an unregistration of any identity (present or
    absent) keeps it so, and so does every interleaving of such steps with
    worker activity and cycles. *)
Theorem thread_number_counts_registry (M aggregation_interval_ms : Z) :
  count_matches (StatsAggregator.initial aggregation_interval_ms)
  ∧ (∀ s id_ context_,
       count_matches s → StatsAggregator.backend_stats_ s !! id_ = None →
       ∃ s', StatsAggregator.RegisterContext id_ context_ s = Some s' ∧ count_matches s')
  ∧ (∀ s id, count_matches s → count_matches (StatsAggregator.UnregisterContext id s))
  ∧ (∀ es w w', count_matches w.1 → run_events M es w = Some w' → count_matches w'.1).
Proof.
  split; [|split; [|split]].
  - unfold count_matches. simpl. by rewrite map_size_empty.
  - intros s id_ context_ Hcount Habsent.
    pose proof (RegisterContext_None_Some id_ context_ s Habsent) as Hs'.
    eexists. split; [exact Hs'|].
    by apply (apply_op_count_matches (Register id_ context_) s).
  - intros s id Hcount. by apply (apply_op_count_matches (Unregister id) s).
  - intros es w w' Hcount Hw. by apply (run_events_count_matches M es w).
Qed.

Lemma thread_number_counts_registry_witness :
  ∃ w, run_events 1000 scenario_b
         (started, StatsAggregator.Locals 0 0.4%float 0.0%float) = Some w
    ∧ count_matches w.1
    ∧ StatsAggregator.thread_number_ w.1 = 1.
Proof.
  eexists. split; [vm_compute; reflexivity|]. split; [|reflexivity].
  refine (proj2 (proj2 (proj2 (thread_number_counts_registry 1000 1000))) scenario_b
            (started, StatsAggregator.Locals 0 0.4%float 0.0%float) _ _ _).
  - unfold count_matches. vm_compute. reflexivity.
  - vm_compute. reflexivity.
Defined.

(** ** The accumulator of a cycle *)

Lemma spec_accumulator_counters (s : StatsAggregator.t) k :
  read_counter (spec_accumulator s) k
  = read_counter (StatsAggregator.stats_history_ s) k
    + live_total (delete (StatsAggregator.get_id s) (StatsAggregator.backend_stats_ s)) k.
Proof.
  unfold spec_accumulator. rewrite live_total_list.
  induction (map_to_list (delete (StatsAggregator.get_id s) (StatsAggregator.backend_stats_ s)))
    as [|[id c] l IH]; cbn [foldr snd]; [lia|].
  rewrite read_counter_Aggregate, IH. lia.
Qed.

Lemma aggregate_entries_queue this_id (l : list (thread_id * BackendStatsContext.t)) acc reg :
  BackendStatsContext.completed_query_metrics_
    (foldl (StatsAggregator.aggregate_entry this_id) (acc, reg) l).1
  = BackendStatsContext.completed_query_metrics_ acc
    ++ concat ((λ val : thread_id * BackendStatsContext.t,
                  if decide (val.1 ≠ this_id)
                  then BackendStatsContext.completed_query_metrics_ val.2 else [])
                 <$> l).
Proof.
  revert acc reg. induction l as [|[id c] l IH]; intros acc reg.
  - cbn [foldl fmap list_fmap concat fst]. by rewrite app_nil_r.
  - rewrite fmap_cons. cbn [foldl concat fst snd].
    destruct (decide (id = this_id)) as [->|Hne].
    + rewrite aggregate_entry_own, IH. by rewrite decide_False by (intros ?; done).
    + rewrite aggregate_entry_other, IH by done. rewrite decide_True by done.
      change (BackendStatsContext.completed_query_metrics_
                (BackendStatsContext.Aggregate acc c).1)
        with (BackendStatsContext.completed_query_metrics_ acc
              ++ BackendStatsContext.completed_query_metrics_ c).
      by rewrite <-app_assoc.
Qed.

Lemma merge_contexts_queue (s : StatsAggregator.t) :
  BackendStatsContext.completed_query_metrics_
    (StatsAggregator.aggregated_stats_ (StatsAggregator.merge_contexts s))
  = gathered_queries s.
Proof.
  change (StatsAggregator.aggregated_stats_ (StatsAggregator.merge_contexts s))
    with (BackendStatsContext.Aggregate
            (foldl (StatsAggregator.aggregate_entry (StatsAggregator.get_id s))
               (BackendStatsContext.Reset (StatsAggregator.aggregated_stats_ s),
                StatsAggregator.backend_stats_ s)
               (map_to_list (StatsAggregator.backend_stats_ s))).1
            (StatsAggregator.stats_history_ s)).1.
  change (BackendStatsContext.completed_query_metrics_
            (BackendStatsContext.Aggregate ?a ?b).1)
    with (BackendStatsContext.completed_query_metrics_ a
          ++ BackendStatsContext.completed_query_metrics_ b).
  by rewrite aggregate_entries_queue.
Qed.






(** Scenario A: the accumulator reports 10 committed and 2 aborted
    transactions, the 4 of the aggregation thread are not in it. *)
Example scenario_a_accumulator :
  let s' := (StatsAggregator.Aggregate 1000 scenario_a first_locals).1.1 in
  read_counter (StatsAggregator.aggregated_stats_ s') (TxnCommitted 3) = 10
  ∧ read_counter (StatsAggregator.aggregated_stats_ s') (TxnAborted 3) = 2.
Proof. vm_compute. done. Qed.

(** ** Stopping *)

(** C8. [ShutdownAggregator] on an aggregator that is not aggregating
    returns without an error and leaves every field as it was. A call that
    returns leaves an aggregator on which a second call does nothing; and
    when the first call found the aggregator running, its thread has been
    joined and the flag is down once it returns. *)
Theorem ShutdownAggregator_idempotent (s : StatsAggregator.t) :
  (StatsAggregator.is_aggregating_ s = false → StatsAggregator.ShutdownAggregator s = Some s)
  ∧ (∀ s', StatsAggregator.ShutdownAggregator s = Some s' →
           StatsAggregator.ShutdownAggregator s' = Some s'
           ∧ StatsAggregator.is_aggregating_ s' = false
           ∧ (StatsAggregator.is_aggregating_ s = true → StatsAggregator.joinable s' = false)).
Proof.
  unfold StatsAggregator.ShutdownAggregator. split.
  - by intros ->.
  - intros s'. destruct (StatsAggregator.is_aggregating_ s) eqn:Hflag.
    + destruct (StatsAggregator.joinable s); [|done]. intros [= <-]. by fields.
    + intros [= <-]. by rewrite Hflag.
Qed.

(** Scenario C: the aggregator is constructed, then stopped twice. *)
Lemma ShutdownAggregator_idempotent_witness :
  ∃ s s', StatsAggregator.construct 1000 9 = Some s
    ∧ StatsAggregator.ShutdownAggregator s = Some s'
    ∧ StatsAggregator.ShutdownAggregator s' = Some s'
    ∧ StatsAggregator.is_aggregating_ s' = false
    ∧ (StatsAggregator.is_aggregating_ s = true → StatsAggregator.joinable s' = false).
Proof.
  eexists. eexists. split; [reflexivity|]. split; [reflexivity|].
  apply (proj2 (ShutdownAggregator_idempotent started)). reflexivity.
Defined.

(** The constructed aggregator can be stopped: the first call returns. *)
Lemma ShutdownAggregator_constructed aggregation_interval_ms spawned s :
  StatsAggregator.construct aggregation_interval_ms spawned = Some s →
  is_Some (StatsAggregator.ShutdownAggregator s).
Proof. intros Hs. apply construct_Some in Hs. subst s. by eexists. Qed.

(** ** The throughput figures *)

Lemma Aggregate_figures M s l :
  (StatsAggregator.Aggregate M s l).2
  = StatsAggregator.throughput_figures M
      (StatsAggregator.sum_txns_committed
         (StatsAggregator.aggregated_stats_ (StatsAggregator.merge_contexts s)))
      (StatsAggregator.total_prev_txn_committed_ s)
      (StatsAggregator.Locals (Int64.incr (StatsAggregator.interval_cnt l))
         (StatsAggregator.alpha l) (StatsAggregator.weighted_avg_throughput l)).
Proof. reflexivity. Qed.

Lemma Aggregate_frame M s l :
  (StatsAggregator.Aggregate M s l).1.2
  = StatsAggregator.Locals (Int64.incr (StatsAggregator.interval_cnt l))
      (StatsAggregator.alpha l)
      (StatsAggregator.moving_avg_throughput (StatsAggregator.Aggregate M s l).2).
Proof. reflexivity. Qed.

Lemma Aggregate_total_prev M s l :
  StatsAggregator.total_prev_txn_committed_ (StatsAggregator.Aggregate M s l).1.1
  = StatsAggregator.current_txns_committed (StatsAggregator.Aggregate M s l).2.
Proof. reflexivity. Qed.

(** C9. A cycle stores the committed total it has just summed as the
    previous total, whatever the difference to the former one; the cycle
    after it, whatever the other threads did in between, takes its
    difference against that stored total. *)
Theorem previous_total_persisted (M : Z) (s : StatsAggregator.t) (l : StatsAggregator.locals) :
  let r := StatsAggregator.Aggregate M s l in
  StatsAggregator.current_txns_committed r.2
  = StatsAggregator.sum_txns_committed (StatsAggregator.aggregated_stats_ r.1.1)
  ∧ StatsAggregator.txns_committed_this_interval r.2
    = Int64.sub (StatsAggregator.current_txns_committed r.2)
        (StatsAggregator.total_prev_txn_committed_ s)
  ∧ StatsAggregator.total_prev_txn_committed_ r.1.1
    = StatsAggregator.current_txns_committed r.2
  ∧ (∀ ops s2, run_ops ops r.1.1 = Some s2 →
       let r2 := StatsAggregator.Aggregate M s2 r.1.2 in
       StatsAggregator.txns_committed_this_interval r2.2
       = Int64.sub (StatsAggregator.current_txns_committed r2.2)
           (StatsAggregator.current_txns_committed r.2)).
Proof.
  cbv zeta. split; [reflexivity|]. split; [reflexivity|]. split; [reflexivity|].
  intros ops s2 Hops.
  transitivity (Int64.sub
                  (StatsAggregator.current_txns_committed
                     (StatsAggregator.Aggregate M s2 (StatsAggregator.Aggregate M s l).1.2).2)
                  (StatsAggregator.total_prev_txn_committed_ s2)); [reflexivity|].
  by rewrite (run_ops_total_prev _ _ _ Hops), Aggregate_total_prev.
Qed.

(** A committed count that goes backwards: the difference of the second
    cycle is negative, and the second total is stored all the same. *)
Lemma previous_total_persisted_witness :
  let r := StatsAggregator.Aggregate 1000 scenario_a first_locals in
  ∃ s2, run_ops counter_reset r.1.1 = Some s2
    ∧ let r2 := StatsAggregator.Aggregate 1000 s2 r.1.2 in
      StatsAggregator.txns_committed_this_interval r2.2
      = Int64.sub (StatsAggregator.current_txns_committed r2.2)
          (StatsAggregator.current_txns_committed r.2)
      ∧ StatsAggregator.txns_committed_this_interval r2.2 = -4
      ∧ StatsAggregator.total_prev_txn_committed_ r2.1.1 = 6.
Proof.
  cbv zeta. eexists. split; [vm_compute; reflexivity|].
  split; [|split; vm_compute; reflexivity].
  apply (proj2 (proj2 (proj2 (previous_total_persisted 1000 scenario_a first_locals)))
           counter_reset).
  vm_compute. reflexivity.
Defined.

(** The instantaneous throughput of a cycle is computed from the difference
    and the macro alone: the configured period does not enter it. *)
Lemma throughput_formula M s l :
  StatsAggregator.throughput_ (StatsAggregator.Aggregate M s l).2
  = (Double.of_int64 (StatsAggregator.txns_committed_this_interval
                        (StatsAggregator.Aggregate M s l).2)
     / Double.of_int64 1000 * Double.of_int64 M)%float.
Proof. reflexivity. Qed.

(** The figures of a cycle are the same whatever period the aggregator was
    constructed with. *)
Lemma figures_ignore_configured_interval M h a b i j n p f t l :
  (StatsAggregator.Aggregate M (StatsAggregator.Build h a b i n p f t) l).2
  = (StatsAggregator.Aggregate M (StatsAggregator.Build h a b j n p f t) l).2.
Proof. reflexivity. Qed.

(** Scenario A with the macro at 1000: the weighted average and the
    instantaneous throughput of the first cycle are both 10. *)
Example scenario_a_throughput :
  let f := (StatsAggregator.Aggregate 1000 scenario_a first_locals).2 in
  StatsAggregator.throughput_ f = 10%float
  ∧ StatsAggregator.moving_avg_throughput f = 10%float
  ∧ StatsAggregator.avg_throughput_ f = 10%float.
Proof. vm_compute. done. Qed.

(** C3 (the code departs from it). Ten transactions committed in one
    interval of an aggregator configured with a period of 2000 ms are a
    throughput of 5 per second. The cycle reports 10 when the macro is 1000
    and 20 when the macro is 2000: it divides by 1000 and multiplies by the
    macro, while the average on the next line divides by the macro and
    multiplies by 1000. *)
Theorem throughput_at_two_seconds :
  StatsAggregator.aggregation_interval_ms_ scenario_two_seconds = 2000
  ∧ StatsAggregator.txns_committed_this_interval
      (StatsAggregator.Aggregate 1000 scenario_two_seconds first_locals).2 = 10
  ∧ spec_instant_throughput 10 2000 = 5%float
  ∧ StatsAggregator.throughput_
      (StatsAggregator.Aggregate 1000 scenario_two_seconds first_locals).2 = 10%float
  ∧ StatsAggregator.throughput_
      (StatsAggregator.Aggregate 2000 scenario_two_seconds first_locals).2 = 20%float
  ∧ StatsAggregator.avg_throughput_
      (StatsAggregator.Aggregate 2000 scenario_two_seconds first_locals).2 = 5%float.
Proof. vm_compute. done. Qed.

(** ** The scheduler loop *)

Section Loop.

Variable M : Z.

(** Running the loop along [pre ++ rest] is running it along [pre] and, if
    it has not returned by then, going on along [rest]. *)
Lemma RunAggregator_loop_app (pre rest : list wake) s l log :
  RunAggregator_loop M (pre ++ rest) s l log
  = r ← RunAggregator_loop M pre s l log;
    if returned r then Some r
    else RunAggregator_loop M rest (aggregator r) (frame r) (traced r).
Proof.
  revert s l log. induction pre as [|w pre IH]; intros s l log; [done|].
  cbn [app RunAggregator_loop].
  destruct (run_ops (during w) s) as [s1|]; [|done]. cbn [mbind option_bind].
  destruct (is_timeout (status w) && StatsAggregator.is_aggregating_ s1); [apply IH|done].
Qed.

(** A wake that is not a timeout ends the loop without a cycle. *)
Lemma RunAggregator_loop_no_timeout (w : wake) (post : list wake) s l log :
  status w = no_timeout →
  RunAggregator_loop M (w :: post) s l log
  = s1 ← run_ops (during w) s; Some (Run s1 l log true).
Proof. intros Hw. cbn [RunAggregator_loop]. by rewrite Hw. Qed.

(** So does a timeout after which the flag is found down. *)
Lemma RunAggregator_loop_flag_down (w : wake) (post : list wake) s s1 l log :
  run_ops (during w) s = Some s1 → StatsAggregator.is_aggregating_ s1 = false →
  RunAggregator_loop M (w :: post) s l log = Some (Run s1 l log true).
Proof.
  intros Hops Hflag. cbn [RunAggregator_loop]. rewrite Hops. cbn [mbind option_bind].
  by rewrite Hflag, andb_false_r.
Qed.

(** The loop only ever appends to the trace. *)
Lemma RunAggregator_loop_traced (ws : list wake) s l log r :
  RunAggregator_loop M ws s l log = Some r → log `prefix_of` traced r.
Proof.
  revert s l log. induction ws as [|w ws IH]; intros s l log Hr.
  - by injection Hr as <-.
  - cbn [RunAggregator_loop] in Hr.
    destruct (run_ops (during w) s) as [s1|]; [|done]. cbn [mbind option_bind] in Hr.
    destruct (is_timeout (status w) && StatsAggregator.is_aggregating_ s1).
    + apply IH in Hr. etrans; [|exact Hr]. by apply prefix_app_r.
    + by injection Hr as <-.
Qed.

(** C7. When a wait of the loop returns [no_timeout], the loop is left
    without a cycle: running [RunAggregator] along wakes that go on after
    such a wake gives what running it up to that wake gives, plus what the
    other threads did during that last wait; the figures traced are those of
    the cycles before, and whatever wakes are listed after it, timeouts
    included, start no cycle. *)
Theorem no_cycle_after_shutdown_wake (pre : list wake) (w : wake) (post : list wake)
    (s : StatsAggregator.t) :
  status w = no_timeout →
  RunAggregator M (pre ++ w :: post) s
  = r ← RunAggregator M pre s;
    if returned r then Some r
    else s1 ← run_ops (during w) (aggregator r);
         Some (Run s1 (frame r) (traced r) true).
Proof.
  intros Hw. unfold RunAggregator. rewrite RunAggregator_loop_app.
  destruct (RunAggregator_loop M pre s _ []) as [r|]; [|done]. cbn [mbind option_bind].
  destruct (returned r); [done|]. by apply RunAggregator_loop_no_timeout.
Qed.

(** Once the loop has returned, more wakes change nothing. *)
Lemma RunAggregator_returned (pre post : list wake) s r :
  RunAggregator M pre s = Some r → returned r = true →
  RunAggregator M (pre ++ post) s = Some r.
Proof.
  unfold RunAggregator. intros Hr Hret. rewrite RunAggregator_loop_app, Hr.
  cbn [mbind option_bind]. by rewrite Hret.
Qed.

(** *** The weighted average *)

Lemma smoothed_nil : smoothed [].
Proof. intros n f Hn. by rewrite lookup_nil in Hn. Qed.

Lemma smoothed_snoc (log : list StatsAggregator.figures) (f : StatsAggregator.figures) :
  smoothed log →
  match last log with
  | None => StatsAggregator.moving_avg_throughput f = StatsAggregator.throughput_ f
  | Some prev =>
      StatsAggregator.moving_avg_throughput f
      = (0.4 * StatsAggregator.throughput_ f
         + (1 - 0.4) * StatsAggregator.moving_avg_throughput prev)%float
  end →
  smoothed (log ++ [f]).
Proof.
  intros Hlog Hf n g Hn.
  destruct (decide (n < length log)%nat) as [Hlt|Hge].
  - rewrite lookup_app_l in Hn by done. specialize (Hlog n g Hn).
    destruct n as [|m]; [done|]. destruct Hlog as (prev & Hprev & Heq).
    exists prev. split; [|done]. rewrite lookup_app_l by lia. done.
  - assert (n = length log) as ->.
    { apply lookup_lt_Some in Hn. rewrite length_app in Hn. simpl in Hn. lia. }
    rewrite list_lookup_middle in Hn by done. injection Hn as <-.
    rewrite last_lookup in Hf.
    destruct (length log) as [|m] eqn:Hlen.
    + apply nil_length_inv in Hlen. subst log. exact Hf.
    + cbn [pred] in Hf. destruct (log !! m) as [prev|] eqn:Hprev.
      * exists prev. split; [|done]. rewrite lookup_app_l by lia. done.
      * apply lookup_ge_None in Hprev. lia.
Qed.

(** The figures of one cycle, from the count before it. *)
Lemma Aggregate_moving s l :
  Int64.in_range (StatsAggregator.interval_cnt l) →
  StatsAggregator.moving_avg_throughput (StatsAggregator.Aggregate M s l).2
  = if decide (StatsAggregator.interval_cnt l = 0)
    then StatsAggregator.throughput_ (StatsAggregator.Aggregate M s l).2
    else (StatsAggregator.alpha l * StatsAggregator.throughput_ (StatsAggregator.Aggregate M s l).2
          + (1 - StatsAggregator.alpha l) * StatsAggregator.weighted_avg_throughput l)%float.
Proof.
  intros Hrange. rewrite Aggregate_figures.
  unfold StatsAggregator.throughput_figures.
  cbn [StatsAggregator.moving_avg_throughput StatsAggregator.throughput_
       StatsAggregator.interval_cnt StatsAggregator.alpha
       StatsAggregator.weighted_avg_throughput].
  pose proof (incr_is_one _ Hrange) as Hone.
  case_decide as Hz.
  - by rewrite (proj2 Hone Hz).
  - destruct (Z.eqb_spec (Int64.incr (StatsAggregator.interval_cnt l)) 1) as [H1|_];
      [by apply Hone in H1|reflexivity].
Qed.

Lemma RunAggregator_loop_smoothed (ws : list wake) s l log r :
  RunAggregator_loop M ws s l log = Some r →
  Z.of_nat (length log + length ws) < Int64.half_modulus →
  StatsAggregator.interval_cnt l = Z.of_nat (length log) →
  StatsAggregator.alpha l = 0.4%float →
  (∀ prev, last log = Some prev →
           StatsAggregator.weighted_avg_throughput l
           = StatsAggregator.moving_avg_throughput prev) →
  smoothed log → smoothed (traced r).
Proof.
  revert s l log. induction ws as [|w ws IH]; intros s l log Hr Hbound Hcnt Halpha Hlast Hlog.
  - by injection Hr as <-.
  - cbn [RunAggregator_loop] in Hr.
    destruct (run_ops (during w) s) as [s1|]; [|done]. cbn [mbind option_bind] in Hr.
    destruct (is_timeout (status w) && StatsAggregator.is_aggregating_ s1);
      [|by injection Hr as <-].
    assert (Int64.in_range (StatsAggregator.interval_cnt l)) as Hrange.
    { unfold Int64.in_range. rewrite Hcnt. cbn [length] in Hbound.
      unfold Int64.half_modulus in *. lia. }
    pose proof (Aggregate_moving s1 l Hrange) as Hmoving.
    apply IH in Hr; [done|..].
    + rewrite length_app. cbn [length] in *. lia.
    + rewrite Aggregate_frame. cbn [StatsAggregator.interval_cnt].
      unfold Int64.incr, Int64.add. rewrite wrap_in_range.
      * rewrite Hcnt, length_app. cbn [length]. lia.
      * unfold Int64.in_range, Int64.half_modulus in *. cbn [length] in Hbound. lia.
    + by rewrite Aggregate_frame.
    + intros prev. rewrite last_snoc. intros [= <-]. by rewrite Aggregate_frame.
    + apply smoothed_snoc; [done|].
      rewrite Hmoving, Halpha. destruct log as [|f0 log'] eqn:Hlog'.
      * cbn [last]. rewrite decide_True; [done|]. by rewrite Hcnt.
      * rewrite <-Hlog' in *.
        destruct (last log) as [prev|] eqn:Hprev.
        -- rewrite decide_False; [by rewrite (Hlast prev)|].
           rewrite Hcnt, Hlog'. cbn [length]. lia.
        -- apply last_None in Hprev. congruence.
Qed.

(** C4. Along a run of [RunAggregator] (short enough for [interval_cnt] not
    to overflow), the smoothing factor is 0.4, the weighted average traced by
    the first cycle is the instantaneous throughput of that cycle, and the
    weighted average traced by every later cycle is 0.4 times the
    instantaneous throughput of that cycle plus (1 - 0.4) times the weighted
    average of the cycle before. *)
Theorem weighted_average_state_machine (ws : list wake) (s : StatsAggregator.t) (r : run) :
  RunAggregator M ws s = Some r →
  Z.of_nat (length ws) < Int64.half_modulus →
  StatsAggregator.alpha (frame r) = 0.4%float
  ∧ ∀ n f, traced r !! n = Some f →
      match n with
      | O => StatsAggregator.moving_avg_throughput f = StatsAggregator.throughput_ f
      | S m =>
          ∃ prev, traced r !! m = Some prev
            ∧ StatsAggregator.moving_avg_throughput f
              = (0.4 * StatsAggregator.throughput_ f
                 + (1 - 0.4) * StatsAggregator.moving_avg_throughput prev)%float
      end.
Proof.
  intros Hr Hbound. split.
  - clear Hbound. unfold RunAggregator in Hr. revert Hr.
    generalize (@nil StatsAggregator.figures).
    assert (StatsAggregator.alpha (StatsAggregator.Locals 0 0.4%float 0.0%float) = 0.4%float)
      as Halpha by reflexivity.
    revert Halpha. generalize (StatsAggregator.Locals 0 0.4%float 0.0%float).
    revert s. induction ws as [|w ws IH]; intros s l Halpha log Hr.
    + by injection Hr as <-.
    + cbn [RunAggregator_loop] in Hr.
      destruct (run_ops (during w) s) as [s1|]; [|done]. cbn [mbind option_bind] in Hr.
      destruct (is_timeout (status w) && StatsAggregator.is_aggregating_ s1).
      * apply IH in Hr; [done|]. by rewrite Aggregate_frame.
      * by injection Hr as <-.
  - apply (RunAggregator_loop_smoothed ws s _ [] r Hr);
      first [done | apply smoothed_nil].
Qed.

End Loop.

Lemma no_cycle_after_shutdown_wake_witness :
  RunAggregator 1000 (scenario_b_cycles ++ shutdown_wake :: late_wakes) started
  = (r ← RunAggregator 1000 scenario_b_cycles started;
     if returned r then Some r
     else s1 ← run_ops (during shutdown_wake) (aggregator r);
          Some (Run s1 (frame r) (traced r) true))
  ∧ (traced <$> RunAggregator 1000 (scenario_b_cycles ++ shutdown_wake :: late_wakes) started)
    = (traced <$> RunAggregator 1000 scenario_b_cycles started)
  ∧ (returned <$> RunAggregator 1000 (scenario_b_cycles ++ shutdown_wake :: late_wakes) started)
    = Some true.
Proof.
  split; [|split; vm_compute; reflexivity].
  apply (no_cycle_after_shutdown_wake 1000 scenario_b_cycles shutdown_wake late_wakes started).
  reflexivity.
Defined.

Lemma weighted_average_state_machine_witness :
  ∃ r, RunAggregator 1000 scenario_b_wakes started = Some r
    ∧ StatsAggregator.alpha (frame r) = 0.4%float
    ∧ (∀ n f, traced r !! n = Some f →
         match n with
         | O => StatsAggregator.moving_avg_throughput f = StatsAggregator.throughput_ f
         | S m =>
             ∃ prev, traced r !! m = Some prev
               ∧ StatsAggregator.moving_avg_throughput f
                 = (0.4 * StatsAggregator.throughput_ f
                    + (1 - 0.4) * StatsAggregator.moving_avg_throughput prev)%float
         end)
    ∧ StatsAggregator.throughput_ <$> traced r = [12%float; 3%float]
    ∧ StatsAggregator.moving_avg_throughput <$> traced r
      = [12%float; (0.4 * 3 + (1 - 0.4) * 12)%float].
Proof.
  eexists. split; [vm_compute; reflexivity|].
  match goal with
  | |- ?A ∧ ?B ∧ ?C =>
      cut (A ∧ B);
        [intros [Ha Hb]; split; [exact Ha|split; [exact Hb|vm_compute; done]]|]
  end.
  apply (weighted_average_state_machine 1000 scenario_b_wakes started).
  - vm_compute. reflexivity.
  - vm_compute. reflexivity.
Defined.

(** * Further properties of the code *)

(** ** Registration and unregistration composed *)

(** X1. Registering a context under an absent identity and unregistering
    that identity leaves the registry and the live-thread count as they
    were; what remains of the visit is the context folded into the history. *)
Theorem register_unregister_round_trip (s : StatsAggregator.t) (id : thread_id)
    (context_ : BackendStatsContext.t) :
  StatsAggregator.backend_stats_ s !! id = None →
  ∃ s1, StatsAggregator.RegisterContext id context_ s = Some s1
    ∧ StatsAggregator.UnregisterContext id s1
      = StatsAggregator.set_stats_history_
          (BackendStatsContext.Aggregate (StatsAggregator.stats_history_ s) context_).1 s.
Proof.
  intros Habsent. rewrite (RegisterContext_None_Some _ _ _ Habsent).
  eexists. split; [reflexivity|].
  erewrite UnregisterContext_present; [|fields; apply lookup_insert_eq].
  fields. rewrite delete_insert_eq, (delete_id _ _ Habsent).
  destruct s. unfold StatsAggregator.set_thread_number_, StatsAggregator.set_backend_stats_,
    StatsAggregator.set_stats_history_. fields. f_equal. lia.
Qed.

Lemma register_unregister_round_trip_witness :
  ∃ s1, StatsAggregator.RegisterContext 5 (txns 3 4 1) scenario_registry = Some s1
    ∧ StatsAggregator.UnregisterContext 5 s1
      = StatsAggregator.set_stats_history_
          (BackendStatsContext.Aggregate
             (StatsAggregator.stats_history_ scenario_registry) (txns 3 4 1)).1
          scenario_registry.
Proof.
  apply (register_unregister_round_trip scenario_registry 5 (txns 3 4 1)).
  vm_compute. reflexivity.
Defined.

(** X2. Unregistering an identity twice is unregistering it once: the
    second call finds the identity gone and changes nothing. *)
Theorem UnregisterContext_idempotent (s : StatsAggregator.t) (id : thread_id) :
  StatsAggregator.UnregisterContext id (StatsAggregator.UnregisterContext id s)
  = StatsAggregator.UnregisterContext id s.
Proof.
  apply UnregisterContext_absent.
  destruct (StatsAggregator.backend_stats_ s !! id) as [context|] eqn:Hid.
  - rewrite (UnregisterContext_present _ _ _ Hid). fields. apply lookup_delete_eq.
  - by rewrite (UnregisterContext_absent _ _ Hid).
Qed.

(** X3. Once an identity is registered, registering it again fails the
    assertion, whatever context comes with it, until it is unregistered;
    after that it can register again. *)
Theorem RegisterContext_twice (s s1 : StatsAggregator.t) (id : thread_id)
    (context_ again : BackendStatsContext.t) :
  StatsAggregator.RegisterContext id context_ s = Some s1 →
  StatsAggregator.RegisterContext id again s1 = None
  ∧ is_Some (StatsAggregator.RegisterContext id again
               (StatsAggregator.UnregisterContext id s1)).
Proof.
  intros Hs1. apply RegisterContext_Some in Hs1 as [Habsent ->]. split.
  - apply RegisterContext_present. fields. rewrite lookup_insert_eq. by eexists.
  - erewrite UnregisterContext_present; [|fields; apply lookup_insert_eq].
    rewrite RegisterContext_None_Some; [by eexists|]. fields. apply lookup_delete_eq.
Qed.

Lemma RegisterContext_twice_witness :
  ∃ s1, StatsAggregator.RegisterContext 5 (txns 3 4 1) scenario_registry = Some s1
    ∧ StatsAggregator.RegisterContext 5 BackendStatsContext.empty s1 = None
    ∧ is_Some (StatsAggregator.RegisterContext 5 BackendStatsContext.empty
                 (StatsAggregator.UnregisterContext 5 s1)).
Proof.
  eexists. split; [vm_compute; reflexivity|].
  apply (RegisterContext_twice scenario_registry _ 5 (txns 3 4 1) BackendStatsContext.empty).
  vm_compute. reflexivity.
Defined.



(** ** Starting and stopping *)

Lemma construct_flag_matches_thread aggregation_interval_ms spawned s :
  StatsAggregator.construct aggregation_interval_ms spawned = Some s →
  flag_matches_thread s.
Proof. intros Hs. apply construct_Some in Hs. by subst s. Qed.

Lemma apply_call_flag_matches_thread c s :
  flag_matches_thread s →
  ∃ s1, apply_call c s = Some s1 ∧ flag_matches_thread s1
    ∧ StatsAggregator.stats_history_ s1 = StatsAggregator.stats_history_ s
    ∧ StatsAggregator.backend_stats_ s1 = StatsAggregator.backend_stats_ s
    ∧ StatsAggregator.thread_number_ s1 = StatsAggregator.thread_number_ s
    ∧ StatsAggregator.total_prev_txn_committed_ s1
      = StatsAggregator.total_prev_txn_committed_ s.
Proof.
  unfold flag_matches_thread. intros Hs.
  destruct c as [spawned|]; cbn [apply_call];
    unfold StatsAggregator.LaunchAggregator, StatsAggregator.ShutdownAggregator;
    rewrite <-Hs; destruct (StatsAggregator.is_aggregating_ s) eqn:Hflag;
    eexists; (split; [reflexivity|]); by rewrite ?Hflag.
Qed.

(** X6. On an aggregator whose flag is up exactly when its thread object has
    a thread (the constructed aggregator is one), every sequence of
    [LaunchAggregator] and [ShutdownAggregator] calls returns: no launch
    assigns over a live thread and no shutdown joins a thread that is not
    there. The destructor then runs to its end with the thread joined, and
    the history, the registry, the live-thread count and the previous total
    are what they were at the start. *)
Theorem lifecycle_never_fails (cs : list lifecycle_call) (s : StatsAggregator.t) :
  flag_matches_thread s →
  ∃ s1 s2, run_calls cs s = Some s1
    ∧ flag_matches_thread s1
    ∧ destructor s1 = Some s2
    ∧ StatsAggregator.is_aggregating_ s2 = false
    ∧ StatsAggregator.joinable s2 = false
    ∧ StatsAggregator.stats_history_ s2 = StatsAggregator.stats_history_ s
    ∧ StatsAggregator.backend_stats_ s2 = StatsAggregator.backend_stats_ s
    ∧ StatsAggregator.thread_number_ s2 = StatsAggregator.thread_number_ s
    ∧ StatsAggregator.total_prev_txn_committed_ s2
      = StatsAggregator.total_prev_txn_committed_ s.
Proof.
  revert s. induction cs as [|c cs IH]; intros s Hs.
  - exists s. cbn [run_calls].
    destruct (apply_call_flag_matches_thread Shutdown s Hs)
      as (s2 & Hs2 & Hm2 & Hh & Hb & Hn & Hp). cbn [apply_call] in Hs2.
    assert (StatsAggregator.is_aggregating_ s2 = false) as Hflag.
    { revert Hs2. unfold StatsAggregator.ShutdownAggregator.
      destruct (StatsAggregator.is_aggregating_ s) eqn:Hf.
      - destruct (StatsAggregator.joinable s); [|done]. by intros [= <-].
      - by intros [= <-]. }
    assert (StatsAggregator.joinable s2 = false) as Hjoin by (by rewrite <-Hm2).
    exists s2. unfold destructor. rewrite Hs2. cbn [mbind option_bind]. rewrite Hjoin.
    done.
  - destruct (apply_call_flag_matches_thread c s Hs) as (s' & Hs' & Hm' & Hh & Hb & Hn & Hp).
    destruct (IH s' Hm') as (s1 & s2 & Hrun & Hm1 & Hd & Hf & Hj & Hh2 & Hb2 & Hn2 & Hp2).
    exists s1, s2. cbn [run_calls]. rewrite Hs'. cbn [mbind option_bind].
    by rewrite Hh2, Hb2, Hn2, Hp2.
Qed.

Lemma lifecycle_never_fails_witness :
  ∃ s1 s2, run_calls [Shutdown; Shutdown; Launch 11; Launch 12] started = Some s1
    ∧ flag_matches_thread s1
    ∧ destructor s1 = Some s2
    ∧ StatsAggregator.is_aggregating_ s2 = false
    ∧ StatsAggregator.joinable s2 = false
    ∧ StatsAggregator.stats_history_ s2 = StatsAggregator.stats_history_ started
    ∧ StatsAggregator.backend_stats_ s2 = StatsAggregator.backend_stats_ started
    ∧ StatsAggregator.thread_number_ s2 = StatsAggregator.thread_number_ started
    ∧ StatsAggregator.total_prev_txn_committed_ s2
      = StatsAggregator.total_prev_txn_committed_ started.
Proof.
  apply (lifecycle_never_fails [Shutdown; Shutdown; Launch 11; Launch 12] started).
  reflexivity.
Defined.

(** X7. On a stopped aggregator [LaunchAggregator] starts the thread and
    raises the flag, a second [LaunchAggregator] changes nothing (the thread
    keeps its identity), and [ShutdownAggregator] gives back the stopped
    aggregator, field for field. *)
Theorem launch_shutdown_round_trip (s : StatsAggregator.t) (spawned other : positive) :
  StatsAggregator.is_aggregating_ s = false →
  StatsAggregator.joinable s = false →
  ∃ s1, StatsAggregator.LaunchAggregator spawned s = Some s1
    ∧ StatsAggregator.is_aggregating_ s1 = true
    ∧ StatsAggregator.get_id s1 = Npos spawned
    ∧ StatsAggregator.LaunchAggregator other s1 = Some s1
    ∧ StatsAggregator.ShutdownAggregator s1 = Some s.
Proof.
  intros Hflag Hjoin. unfold StatsAggregator.LaunchAggregator. rewrite Hflag, Hjoin.
  eexists. split; [reflexivity|]. fields. repeat split.
  unfold StatsAggregator.ShutdownAggregator, StatsAggregator.joinable. fields.
  cbn [N.eqb negb]. f_equal. destruct s. unfold StatsAggregator.joinable in Hjoin.
  cbn in Hflag, Hjoin |- *. subst. f_equal.
  apply negb_false_iff, N.eqb_eq in Hjoin. by rewrite Hjoin.
Qed.

Lemma launch_shutdown_round_trip_witness :
  ∃ s1, StatsAggregator.LaunchAggregator 9 (StatsAggregator.initial 1000) = Some s1
    ∧ StatsAggregator.is_aggregating_ s1 = true
    ∧ StatsAggregator.get_id s1 = 9%N
    ∧ StatsAggregator.LaunchAggregator 12 s1 = Some s1
    ∧ StatsAggregator.ShutdownAggregator s1 = Some (StatsAggregator.initial 1000).
Proof.
  apply (launch_shutdown_round_trip (StatsAggregator.initial 1000) 9 12); reflexivity.
Defined.

(** ** More on the scheduler loop *)

Lemma wrap_add_l (a b : Z) : Int64.wrap (Int64.wrap a + b) = Int64.wrap (a + b).
Proof.
  unfold Int64.wrap.
  replace ((a + Int64.half_modulus) `mod` Int64.modulus - Int64.half_modulus + b
           + Int64.half_modulus)
    with ((a + Int64.half_modulus) `mod` Int64.modulus + b) by lia.
  rewrite Zplus_mod_idemp_l. f_equal. f_equal. lia.
Qed.

(** No step of another thread raises the flag. *)
Lemma apply_op_flag_down o s s1 :
  apply_op o s = Some s1 → StatsAggregator.is_aggregating_ s = false →
  StatsAggregator.is_aggregating_ s1 = false.
Proof.
  destruct o as [id_ context_|id|id activity|]; cbn [apply_op]; intros Hs Hflag.
  - by apply RegisterContext_Some in Hs as [_ ->].
  - apply (inj Some) in Hs. subst s1.
    destruct (StatsAggregator.backend_stats_ s !! id) as [context|] eqn:Hid.
    + by rewrite (UnregisterContext_present _ _ _ Hid).
    + by rewrite (UnregisterContext_absent _ _ Hid).
  - unfold record_activity in Hs.
    destruct (StatsAggregator.backend_stats_ s !! id); [|done].
    cbn [mbind option_bind] in Hs. apply (inj Some) in Hs. by subst s1.
  - apply (inj Some) in Hs. by subst s1.
Qed.

Lemma run_ops_flag_down ops s s1 :
  run_ops ops s = Some s1 → StatsAggregator.is_aggregating_ s = false →
  StatsAggregator.is_aggregating_ s1 = false.
Proof.
  revert s. induction ops as [|o ops IH]; cbn [run_ops]; intros s Hs Hflag.
  - apply (inj Some) in Hs. by subst s1.
  - destruct (apply_op o s) as [s'|] eqn:Ho; [|done]. cbn [mbind option_bind] in Hs.
    apply (IH _ Hs). by apply (apply_op_flag_down o s).
Qed.

Lemma run_ops_request_shutdown ops s s1 :
  RequestShutdown ∈ ops → run_ops ops s = Some s1 →
  StatsAggregator.is_aggregating_ s1 = false.
Proof.
  revert s. induction ops as [|o ops IH]; intros s Hin Hs; [by apply elem_of_nil in Hin|].
  cbn [run_ops] in Hs. destruct (apply_op o s) as [s'|] eqn:Ho; [|done].
  cbn [mbind option_bind] in Hs. apply elem_of_cons in Hin as [<-|Hin].
  - apply (run_ops_flag_down _ _ _ Hs). cbn [apply_op] in Ho.
    apply (inj Some) in Ho. by subst s'.
  - by apply (IH s').
Qed.

Section LoopFacts.

Variable M : Z.

(** X8. A shutdown requested while the loop waits ends the loop at the
    return of that wait without a cycle, whether the wait returns
    [no_timeout] (the notification arrived) or [timeout] (it was missed):
    the flag is read after the wait and no other thread raises it. *)
Theorem shutdown_request_stops_loop (pre : list wake) (w : wake) (post : list wake)
    (s : StatsAggregator.t) :
  RequestShutdown ∈ during w →
  RunAggregator M (pre ++ w :: post) s
  = r ← RunAggregator M pre s;
    if returned r then Some r
    else s1 ← run_ops (during w) (aggregator r);
         Some (Run s1 (frame r) (traced r) true).
Proof.
  intros Hw. unfold RunAggregator. rewrite RunAggregator_loop_app.
  destruct (RunAggregator_loop M pre s _ []) as [r|]; [|done]. cbn [mbind option_bind].
  destruct (returned r); [done|].
  destruct (run_ops (during w) (aggregator r)) as [s1|] eqn:Hops.
  - cbn [mbind option_bind].
    apply (RunAggregator_loop_flag_down M w post _ s1); [done|].
    by apply (run_ops_request_shutdown (during w) (aggregator r)).
  - cbn [RunAggregator_loop]. by rewrite Hops.
Qed.

(** An invariant of the steps of the other threads and of the cycles holds
    where the loop stands. *)
Lemma RunAggregator_loop_invariant
    (P : StatsAggregator.t → StatsAggregator.locals → list StatsAggregator.figures → Prop) :
  (∀ o s s1 l log, apply_op o s = Some s1 → P s l log → P s1 l log) →
  (∀ s l log, P s l log →
     P (StatsAggregator.Aggregate M s l).1.1 (StatsAggregator.Aggregate M s l).1.2
       (log ++ [(StatsAggregator.Aggregate M s l).2])) →
  ∀ ws s l log r,
    RunAggregator_loop M ws s l log = Some r → P s l log →
    P (aggregator r) (frame r) (traced r).
Proof.
  intros Hop Hcycle.
  assert (∀ ops s s1 l log, run_ops ops s = Some s1 → P s l log → P s1 l log) as Hops.
  { induction ops as [|o ops IH]; cbn [run_ops]; intros s s1 l log Hs HP.
    - apply (inj Some) in Hs. by subst s1.
    - destruct (apply_op o s) as [s'|] eqn:Ho; [|done]. cbn [mbind option_bind] in Hs.
      apply (IH s' s1 l log Hs). by apply (Hop o s). }
  induction ws as [|w ws IH]; intros s l log r Hr HP.
  - apply (inj Some) in Hr. by subst r.
  - cbn [RunAggregator_loop] in Hr.
    destruct (run_ops (during w) s) as [s1|] eqn:Hs1; [|done].
    cbn [mbind option_bind] in Hr. pose proof (Hops _ _ _ l log Hs1 HP) as HP1.
    destruct (is_timeout (status w) && StatsAggregator.is_aggregating_ s1).
    + apply (IH _ _ _ _ Hr). by apply Hcycle.
    + apply (inj Some) in Hr. by subst r.
Qed.

Lemma RunAggregator_loop_length (ws : list wake) s l log r :
  RunAggregator_loop M ws s l log = Some r →
  (length (traced r) ≤ length log + length ws)%nat
  ∧ (returned r = false →
     length (traced r) = (length log + length ws)%nat
     ∧ Forall (λ w, status w = timeout) ws).
Proof.
  revert s l log r. induction ws as [|w ws IH]; intros s l log r Hr.
  - apply (inj Some) in Hr. subst r. cbn [traced returned length]. split; [lia|].
    intros _. split; [lia|constructor].
  - cbn [RunAggregator_loop] in Hr.
    destruct (run_ops (during w) s) as [s1|]; [|done]. cbn [mbind option_bind] in Hr.
    destruct (status w) eqn:Hstatus; cbn [is_timeout andb] in Hr.
    + apply (inj Some) in Hr. subst r. cbn [traced returned length]. split; [lia|done].
    + destruct (StatsAggregator.is_aggregating_ s1).
      * apply IH in Hr as [Hle Hrun]. rewrite length_app in Hle, Hrun.
        cbn [length] in *. split; [lia|]. intros Hret.
        destruct (Hrun Hret) as [Hlen Hall]. split; [lia|by constructor].
      * apply (inj Some) in Hr. subst r. cbn [traced returned length].
        split; [lia|done].
Qed.

(** The flag after a step of another thread: only a shutdown request
    changes it. *)
Lemma apply_op_flag o s s1 :
  apply_op o s = Some s1 →
  StatsAggregator.is_aggregating_ s1
  = StatsAggregator.is_aggregating_ s && negb (is_request_shutdown o).
Proof.
  destruct o as [id_ context_|id|id activity|]; cbn [apply_op is_request_shutdown negb];
    intros Hs; rewrite ?andb_true_r, ?andb_false_r.
  - by apply RegisterContext_Some in Hs as [_ ->].
  - apply (inj Some) in Hs. subst s1.
    destruct (StatsAggregator.backend_stats_ s !! id) as [context|] eqn:Hid.
    + by rewrite (UnregisterContext_present _ _ _ Hid).
    + by rewrite (UnregisterContext_absent _ _ Hid).
  - unfold record_activity in Hs.
    destruct (StatsAggregator.backend_stats_ s !! id); [|done].
    cbn [mbind option_bind] in Hs. apply (inj Some) in Hs. by subst s1.
  - apply (inj Some) in Hs. by subst s1.
Qed.

Lemma run_ops_flag ops s s1 :
  run_ops ops s = Some s1 →
  StatsAggregator.is_aggregating_ s1
  = StatsAggregator.is_aggregating_ s
    && forallb (λ o, negb (is_request_shutdown o)) ops.
Proof.
  revert s. induction ops as [|o ops IH]; cbn [run_ops forallb]; intros s Hs.
  - apply (inj Some) in Hs. subst s1. by rewrite andb_true_r.
  - destruct (apply_op o s) as [s'|] eqn:Ho; [|done]. cbn [mbind option_bind] in Hs.
    rewrite (IH _ Hs), (apply_op_flag _ _ _ Ho). by rewrite andb_assoc.
Qed.

(** From a flag that is up, the loop runs one cycle at each wake as long as
    the wakes keep it running, and leaves at the first wake that does not. *)
Lemma RunAggregator_loop_cycles (ws : list wake) s l log r :
  StatsAggregator.is_aggregating_ s = true →
  RunAggregator_loop M ws s l log = Some r →
  ∃ pre post,
    ws = pre ++ post
    ∧ Forall (λ w, keeps_running w = true) pre
    ∧ length (traced r) = (length log + length pre)%nat
    ∧ match post with
      | [] => returned r = false
      | w :: _ => keeps_running w = false ∧ returned r = true
      end.
Proof.
  revert s l log r. induction ws as [|w ws IH]; intros s l log r Hflag Hr.
  - apply (inj Some) in Hr. subst r. exists [], []. cbn [traced returned length app].
    split; [done|]. split; [constructor|]. split; [lia|done].
  - cbn [RunAggregator_loop] in Hr.
    destruct (run_ops (during w) s) as [s1|] eqn:Hs1; [|done].
    cbn [mbind option_bind] in Hr.
    pose proof (run_ops_flag _ _ _ Hs1) as Hflag1. rewrite Hflag in Hflag1.
    cbn [andb] in Hflag1.
    assert (is_timeout (status w) && StatsAggregator.is_aggregating_ s1 = keeps_running w)
      as Hgo by (by rewrite Hflag1).
    rewrite Hgo in Hr. destruct (keeps_running w) eqn:Hw.
    + apply IH in Hr as (pre & post & -> & Hpre & Hlen & Hpost).
      * exists (w :: pre), post. rewrite length_app in Hlen. cbn [length] in *.
        split; [done|]. split; [by constructor|]. split; [lia|done].
      * change (StatsAggregator.is_aggregating_ s1 = true). rewrite Hflag1.
        unfold keeps_running in Hw. by apply andb_true_iff in Hw as [_ ->].
    + apply (inj Some) in Hr. subst r. exists [], (w :: ws).
      cbn [traced returned length app].
      split; [done|]. split; [constructor|]. split; [lia|done].
Qed.

(** X9. Each wait that times out with the flag up runs exactly one cycle,
    and nothing else runs one. A run started with the flag up splits its
    wakes in two: those before the first wake that either did not time out
    or had a shutdown requested during it, and the rest; it runs one cycle
    for each wake of the first part and none for the rest, and it has left
    the loop exactly when the rest is not empty. A run started with the flag
    down runs no cycle and leaves the loop at its first wake. *)
Theorem one_cycle_per_timeout (ws : list wake) (s : StatsAggregator.t) (r : run) :
  RunAggregator M ws s = Some r →
  (StatsAggregator.is_aggregating_ s = true →
   ∃ pre post,
     ws = pre ++ post
     ∧ Forall (λ w, keeps_running w = true) pre
     ∧ length (traced r) = length pre
     ∧ match post with
       | [] => returned r = false
       | w :: _ => keeps_running w = false ∧ returned r = true
       end)
  ∧ (StatsAggregator.is_aggregating_ s = false → ws ≠ [] →
     traced r = [] ∧ returned r = true).
Proof.
  intros Hr. split.
  - intros Hflag. by apply (RunAggregator_loop_cycles ws s _ [] r Hflag) in Hr.
  - intros Hflag Hws. destruct ws as [|w post]; [done|].
    unfold RunAggregator in Hr. cbn [RunAggregator_loop] in Hr.
    destruct (run_ops (during w) s) as [s1|] eqn:Hs1; [|done].
    cbn [mbind option_bind] in Hr.
    rewrite (run_ops_flag_down _ _ _ Hs1 Hflag), andb_false_r in Hr.
    apply (inj Some) in Hr. by subst r.
Qed.

(** X10. The interval count that [RunAggregator] keeps is the number of
    cycles it has run (as a 64-bit integer), and the weighted average it
    keeps is the one the last cycle traced, or zero before the first
    cycle. *)
Theorem locals_follow_cycles (ws : list wake) (s : StatsAggregator.t) (r : run) :
  RunAggregator M ws s = Some r →
  StatsAggregator.interval_cnt (frame r) = Int64.wrap (Z.of_nat (length (traced r)))
  ∧ (Z.of_nat (length ws) < Int64.half_modulus →
     StatsAggregator.interval_cnt (frame r) = Z.of_nat (length (traced r)))
  ∧ StatsAggregator.weighted_avg_throughput (frame r)
    = from_option StatsAggregator.moving_avg_throughput 0.0%float (last (traced r)).
Proof.
  intros Hr.
  set (P := λ (_ : StatsAggregator.t) (l : StatsAggregator.locals)
              (log : list StatsAggregator.figures),
              StatsAggregator.interval_cnt l = Int64.wrap (Z.of_nat (length log))
              ∧ StatsAggregator.weighted_avg_throughput l
                = from_option StatsAggregator.moving_avg_throughput 0.0%float (last log)).
  assert (P (aggregator r) (frame r) (traced r)) as [Hcnt Havg].
  { apply (RunAggregator_loop_invariant P) with (ws := ws) (s := s)
      (l := StatsAggregator.Locals 0 0.4%float 0.0%float) (log := []);
      [ | |exact Hr| ].
    - done.
    - intros s0 l log [Hcnt Havg]. unfold P. rewrite Aggregate_frame.
      cbn [StatsAggregator.interval_cnt StatsAggregator.weighted_avg_throughput].
      rewrite last_snoc. split; [|done].
      unfold Int64.incr, Int64.add. rewrite Hcnt, wrap_add_l, length_app. cbn [length].
      f_equal. lia.
    - done. }
  split; [done|]. split; [|done]. intros Hbound. rewrite Hcnt.
  apply wrap_in_range.
  pose proof (proj1 (RunAggregator_loop_length ws s _ [] r Hr)) as Hlen.
  cbn [length] in Hlen. unfold Int64.in_range, Int64.half_modulus in *. lia.
Qed.

End LoopFacts.

Lemma shutdown_request_stops_loop_witness :
  RunAggregator 1000 (take 1 scenario_b_cycles ++ missed_notification :: late_wakes) started
  = (r ← RunAggregator 1000 (take 1 scenario_b_cycles) started;
     if returned r then Some r
     else s1 ← run_ops (during missed_notification) (aggregator r);
          Some (Run s1 (frame r) (traced r) true))
  ∧ (length ∘ traced <$>
       RunAggregator 1000 (take 1 scenario_b_cycles ++ missed_notification :: late_wakes)
         started)
    = Some 1%nat.
Proof.
  split; [|vm_compute; reflexivity].
  apply (shutdown_request_stops_loop 1000 (take 1 scenario_b_cycles) missed_notification
           late_wakes started).
  unfold missed_notification. cbn [during]. repeat constructor.
Defined.

Lemma one_cycle_per_timeout_witness :
  ∃ r, RunAggregator 1000 scenario_b_wakes started = Some r
    ∧ ((StatsAggregator.is_aggregating_ started = true →
        ∃ pre post,
          scenario_b_wakes = pre ++ post
          ∧ Forall (λ w, keeps_running w = true) pre
          ∧ length (traced r) = length pre
          ∧ match post with
            | [] => returned r = false
            | w :: _ => keeps_running w = false ∧ returned r = true
            end)
       ∧ (StatsAggregator.is_aggregating_ started = false → scenario_b_wakes ≠ [] →
          traced r = [] ∧ returned r = true))
    ∧ StatsAggregator.is_aggregating_ started = true
    ∧ length (traced r) = 2%nat
    ∧ returned r = true.
Proof.
  eexists. split; [vm_compute; reflexivity|].
  split; [|repeat split; vm_compute; reflexivity].
  apply (one_cycle_per_timeout 1000 scenario_b_wakes started).
  vm_compute. reflexivity.
Defined.

Lemma locals_follow_cycles_witness :
  ∃ r, RunAggregator 1000 scenario_b_wakes started = Some r
    ∧ StatsAggregator.interval_cnt (frame r) = Int64.wrap (Z.of_nat (length (traced r)))
    ∧ (Z.of_nat (length scenario_b_wakes) < Int64.half_modulus →
       StatsAggregator.interval_cnt (frame r) = Z.of_nat (length (traced r)))
    ∧ StatsAggregator.weighted_avg_throughput (frame r)
      = from_option StatsAggregator.moving_avg_throughput 0.0%float (last (traced r)).
Proof.
  eexists. split; [vm_compute; reflexivity|].
  apply (locals_follow_cycles 1000 scenario_b_wakes started).
  vm_compute. reflexivity.
Defined.

(** ** Differences along a run *)

(** X11. Along a run of the loop the difference each cycle traces is taken
    against the total the cycle before it traced (against the stored total
    at the start, for the first cycle), whatever the other threads did in
    between; and the total stored at the end is the one the last cycle
    traced. *)
Theorem differences_chain (M : Z) (ws : list wake) (s : StatsAggregator.t) (r : run) :
  RunAggregator M ws s = Some r →
  (∀ n g, traced r !! n = Some g →
     StatsAggregator.txns_committed_this_interval g
     = Int64.sub (StatsAggregator.current_txns_committed g)
         match n with
         | O => StatsAggregator.total_prev_txn_committed_ s
         | S m => from_option StatsAggregator.current_txns_committed 0 (traced r !! m)
         end)
  ∧ StatsAggregator.total_prev_txn_committed_ (aggregator r)
    = from_option StatsAggregator.current_txns_committed
        (StatsAggregator.total_prev_txn_committed_ s) (last (traced r)).
Proof.
  intros Hr.
  set (p0 := StatsAggregator.total_prev_txn_committed_ s).
  set (P := λ (s' : StatsAggregator.t) (_ : StatsAggregator.locals)
              (log : list StatsAggregator.figures),
              (∀ n g, log !! n = Some g →
                 StatsAggregator.txns_committed_this_interval g
                 = Int64.sub (StatsAggregator.current_txns_committed g)
                     match n with
                     | O => p0
                     | S m => from_option StatsAggregator.current_txns_committed 0 (log !! m)
                     end)
              ∧ StatsAggregator.total_prev_txn_committed_ s'
                = from_option StatsAggregator.current_txns_committed p0 (last log)).
  apply (RunAggregator_loop_invariant M P) with (ws := ws) (s := s)
    (l := StatsAggregator.Locals 0 0.4%float 0.0%float) (log := []); [ | |exact Hr| ].
  - intros o s0 s1 l log Ho [Hchain Hprev]. split; [done|].
    by rewrite (apply_op_total_prev _ _ _ Ho).
  - intros s0 l log [Hchain Hprev]. split.
    + intros n g Hn. destruct (decide (n < length log)%nat) as [Hlt|Hge].
      * rewrite lookup_app_l in Hn by done. rewrite (Hchain n g Hn).
        destruct n as [|m]; [done|]. by rewrite lookup_app_l by lia.
      * assert (n = length log) as ->.
        { apply lookup_lt_Some in Hn. rewrite length_app in Hn. cbn [length] in Hn. lia. }
        rewrite list_lookup_middle in Hn by done. apply (inj Some) in Hn. subst g.
        transitivity (Int64.sub
                        (StatsAggregator.current_txns_committed
                           (StatsAggregator.Aggregate M s0 l).2)
                        (StatsAggregator.total_prev_txn_committed_ s0)); [reflexivity|].
        f_equal. rewrite Hprev, last_lookup.
        destruct (length log) as [|m] eqn:Hlen.
        -- apply nil_length_inv in Hlen. by subst log.
        -- cbn [pred]. rewrite lookup_app_l by lia.
           destruct (log !! m) as [prev|] eqn:Hm; [done|].
           apply lookup_ge_None in Hm. lia.
    + by rewrite Aggregate_total_prev, last_snoc.
  - split; [|done]. intros n g Hn. by rewrite lookup_nil in Hn.
Qed.

Lemma differences_chain_witness :
  ∃ r, RunAggregator 1000 scenario_b_wakes started = Some r
    ∧ (∀ n g, traced r !! n = Some g →
         StatsAggregator.txns_committed_this_interval g
         = Int64.sub (StatsAggregator.current_txns_committed g)
             match n with
             | O => StatsAggregator.total_prev_txn_committed_ started
             | S m => from_option StatsAggregator.current_txns_committed 0 (traced r !! m)
             end)
    ∧ StatsAggregator.total_prev_txn_committed_ (aggregator r)
      = from_option StatsAggregator.current_txns_committed
          (StatsAggregator.total_prev_txn_committed_ started) (last (traced r)).
Proof.
  eexists. split; [vm_compute; reflexivity|].
  apply (differences_chain 1000 scenario_b_wakes started).
  vm_compute. reflexivity.
Defined.

(** ** What a cycle leaves behind, and what the next one sees *)

Lemma Aggregate_get_id M s l :
  StatsAggregator.get_id (StatsAggregator.Aggregate M s l).1.1 = StatsAggregator.get_id s.
Proof. reflexivity. Qed.

Lemma Aggregate_accumulator_counters M s l k :
  read_counter (StatsAggregator.aggregated_stats_ (StatsAggregator.Aggregate M s l).1.1) k
  = read_counter (StatsAggregator.stats_history_ s) k
    + live_total (delete (StatsAggregator.get_id s) (StatsAggregator.backend_stats_ s)) k.
Proof. by rewrite Aggregate_aggregated_counters, merge_contexts_aggregated. Qed.

Lemma Aggregate_accumulator_tables M s l :
  tables (StatsAggregator.aggregated_stats_ (StatsAggregator.Aggregate M s l).1.1)
  = tables (spec_accumulator s).
Proof. apply (merge_contexts_tables s). Qed.

(** X13. A cycle empties every queue of completed queries it reads: the
    history's, that of every registered context other than the aggregation
    thread's own, and the accumulator's, which [UpdateQueryMetrics] dequeues
    to the end. The context registered under the aggregator's own identity
    keeps its queue, and the metric tables of every registered context and
    of the history are what they were. *)
Theorem Aggregate_drains_queues (M : Z) (s : StatsAggregator.t) (l : StatsAggregator.locals) :
  let s' := (StatsAggregator.Aggregate M s l).1.1 in
  BackendStatsContext.completed_query_metrics_ (StatsAggregator.stats_history_ s') = []
  ∧ BackendStatsContext.completed_query_metrics_ (StatsAggregator.aggregated_stats_ s') = []
  ∧ tables (StatsAggregator.stats_history_ s') = tables (StatsAggregator.stats_history_ s)
  ∧ ∀ id,
      match StatsAggregator.backend_stats_ s !! id with
      | None => StatsAggregator.backend_stats_ s' !! id = None
      | Some c =>
          ∃ c', StatsAggregator.backend_stats_ s' !! id = Some c'
            ∧ tables c' = tables c
            ∧ BackendStatsContext.completed_query_metrics_ c'
              = if decide (id = StatsAggregator.get_id s)
                then BackendStatsContext.completed_query_metrics_ c else []
      end.
Proof.
  cbv zeta. split; [reflexivity|]. split; [reflexivity|]. split; [reflexivity|].
  intros id. rewrite Aggregate_registry, merge_contexts_registry.
  destruct (StatsAggregator.backend_stats_ s !! id) as [c|]; [|done].
  cbn [fmap option_fmap option_map]. eexists. split; [reflexivity|].
  unfold visited. destruct (decide (id = StatsAggregator.get_id s)) as [->|Hne].
  - by rewrite decide_False by (intros ?; done).
  - by rewrite decide_True.
Qed.

Lemma others_after_cycle M s l :
  delete (StatsAggregator.get_id s)
    (StatsAggregator.backend_stats_ (StatsAggregator.Aggregate M s l).1.1)
  = drained <$> delete (StatsAggregator.get_id s) (StatsAggregator.backend_stats_ s).
Proof.
  apply map_eq. intros id. rewrite Aggregate_registry, lookup_fmap.
  destruct (decide (id = StatsAggregator.get_id s)) as [->|Hne].
  - by rewrite !lookup_delete_eq.
  - rewrite !lookup_delete_ne by done. rewrite merge_contexts_registry.
    destruct (StatsAggregator.backend_stats_ s !! id) as [c|]; [|done].
    cbn [fmap option_fmap option_map]. unfold visited. by rewrite decide_True.
Qed.

Lemma spec_accumulator_after_cycle M s l :
  tables (spec_accumulator (StatsAggregator.Aggregate M s l).1.1)
  = tables (spec_accumulator s).
Proof.
  rewrite !spec_accumulator_tables, Aggregate_get_id, others_after_cycle.
  rewrite Aggregate_history, tables_drained. f_equal.
  rewrite map_to_list_fmap, foldr_fmap. by apply foldr_ext; [intros [??]|..].
Qed.

(** X14. A cycle that follows another with nothing done in between sums the
    same committed total, traces a difference of zero and fills the
    accumulator with the same metric tables: what a cycle drains is only the
    queues. *)
Theorem idle_cycle (M : Z) (s : StatsAggregator.t) (l : StatsAggregator.locals) :
  let r1 := StatsAggregator.Aggregate M s l in
  let r2 := StatsAggregator.Aggregate M r1.1.1 r1.1.2 in
  tables (StatsAggregator.aggregated_stats_ r2.1.1)
  = tables (StatsAggregator.aggregated_stats_ r1.1.1)
  ∧ StatsAggregator.current_txns_committed r2.2 = StatsAggregator.current_txns_committed r1.2
  ∧ StatsAggregator.txns_committed_this_interval r2.2 = 0.
Proof.
  cbv zeta.
  assert (tables (StatsAggregator.aggregated_stats_
                    (StatsAggregator.Aggregate M (StatsAggregator.Aggregate M s l).1.1
                       (StatsAggregator.Aggregate M s l).1.2).1.1)
          = tables (StatsAggregator.aggregated_stats_ (StatsAggregator.Aggregate M s l).1.1))
    as Htables.
  { by rewrite !Aggregate_accumulator_tables, spec_accumulator_after_cycle. }
  assert (StatsAggregator.current_txns_committed
            (StatsAggregator.Aggregate M (StatsAggregator.Aggregate M s l).1.1
               (StatsAggregator.Aggregate M s l).1.2).2
          = StatsAggregator.current_txns_committed (StatsAggregator.Aggregate M s l).2)
    as Hcurrent.
  { change (StatsAggregator.sum_txns_committed
              (StatsAggregator.aggregated_stats_
                 (StatsAggregator.Aggregate M (StatsAggregator.Aggregate M s l).1.1
                    (StatsAggregator.Aggregate M s l).1.2).1.1)
            = StatsAggregator.sum_txns_committed
                (StatsAggregator.aggregated_stats_ (StatsAggregator.Aggregate M s l).1.1)).
    unfold StatsAggregator.sum_txns_committed.
    by replace (BackendStatsContext.database_metrics_
                  (StatsAggregator.aggregated_stats_
                     (StatsAggregator.Aggregate M (StatsAggregator.Aggregate M s l).1.1
                        (StatsAggregator.Aggregate M s l).1.2).1.1))
      with (BackendStatsContext.database_metrics_
              (StatsAggregator.aggregated_stats_ (StatsAggregator.Aggregate M s l).1.1))
      by (by injection Htables). }
  split; [done|]. split; [done|].
  transitivity (Int64.sub
                  (StatsAggregator.current_txns_committed
                     (StatsAggregator.Aggregate M (StatsAggregator.Aggregate M s l).1.1
                        (StatsAggregator.Aggregate M s l).1.2).2)
                  (StatsAggregator.total_prev_txn_committed_
                     (StatsAggregator.Aggregate M s l).1.1)); [reflexivity|].
  rewrite Hcurrent, Aggregate_total_prev. unfold Int64.sub.
  by rewrite Z.sub_diag.
Qed.

(** X15. What a step of another thread changes in the accumulator of the
    next cycle: a context registered, or an activity recorded, under another
    identity than the aggregation thread's adds its counters, and adds
    nothing under the aggregation thread's identity; an unregistration of
    another identity changes nothing (the context moves from the registry to
    the history), and the unregistration of the aggregation thread's own
    identity brings the counters of its context into the accumulator through
    the history. *)
Theorem step_shows_in_next_cycle (M : Z) (o : op) (s s1 : StatsAggregator.t)
    (l : StatsAggregator.locals) (k : counter) :
  apply_op o s = Some s1 →
  read_counter (StatsAggregator.aggregated_stats_ (StatsAggregator.Aggregate M s1 l).1.1) k
  = read_counter (StatsAggregator.aggregated_stats_ (StatsAggregator.Aggregate M s l).1.1) k
    + shown_contribution o s k.
Proof.
  intros Ho. rewrite !Aggregate_accumulator_counters.
  set (this := StatsAggregator.get_id s).
  destruct o as [id_ context_|id|id activity|]; cbn [apply_op shown_contribution] in *.
  - apply RegisterContext_Some in Ho as [Habsent ->].
    unfold StatsAggregator.get_id. fields. fold (StatsAggregator.get_id s). fold this.
    destruct (decide (id_ = this)) as [->|Hne].
    + rewrite delete_insert_eq. lia.
    + rewrite delete_insert_ne by done.
      rewrite live_total_insert by (by rewrite lookup_delete_ne). lia.
  - apply (inj Some) in Ho. subst s1.
    destruct (StatsAggregator.backend_stats_ s !! id) as [c|] eqn:Hid.
    + rewrite (UnregisterContext_present _ _ _ Hid).
      unfold StatsAggregator.get_id. fields. fold (StatsAggregator.get_id s). fold this.
      rewrite read_counter_Aggregate. cbn [from_option].
      destruct (decide (id = this)) as [->|Hne].
      * rewrite delete_delete_eq. lia.
      * rewrite (live_total_delete (delete this (StatsAggregator.backend_stats_ s)) id c k)
          by (by rewrite lookup_delete_ne).
        rewrite (delete_delete _ id this). lia.
    + rewrite (UnregisterContext_absent _ _ Hid). cbn [from_option].
      unfold this. case_decide; lia.
  - unfold record_activity in Ho.
    destruct (StatsAggregator.backend_stats_ s !! id) as [c|] eqn:Hid; [|done].
    cbn [mbind option_bind] in Ho. apply (inj Some) in Ho. subst s1.
    unfold StatsAggregator.get_id. fields. fold (StatsAggregator.get_id s). fold this.
    destruct (decide (id = this)) as [->|Hne].
    + rewrite delete_insert_eq. lia.
    + rewrite delete_insert_ne by done.
      rewrite (live_total_replace _ id c _ k) by (by rewrite lookup_delete_ne).
      rewrite read_counter_Aggregate. lia.
  - apply (inj Some) in Ho. subst s1. unfold this, StatsAggregator.get_id. fields. lia.
Qed.

Lemma step_shows_in_next_cycle_witness :
  ∃ s1, apply_op (Unregister 9) scenario_a = Some s1
    ∧ read_counter
        (StatsAggregator.aggregated_stats_
           (StatsAggregator.Aggregate 1000 s1 first_locals).1.1) (TxnCommitted 3)
      = read_counter
          (StatsAggregator.aggregated_stats_
             (StatsAggregator.Aggregate 1000 scenario_a first_locals).1.1) (TxnCommitted 3)
        + shown_contribution (Unregister 9) scenario_a (TxnCommitted 3)
    ∧ shown_contribution (Unregister 9) scenario_a (TxnCommitted 3) = 4
    ∧ shown_contribution (Unregister 1) scenario_a (TxnCommitted 3) = 0.
Proof.
  eexists. split; [reflexivity|]. split; [|split; vm_compute; reflexivity].
  apply (step_shows_in_next_cycle 1000 (Unregister 9) scenario_a).
  reflexivity.
Defined.

(** ** The transaction of [UpdateMetrics] *)

Lemma bind_is_Some {A B} (x : option A) (f : A → option B) :
  is_Some (x ≫= f) ↔ ∃ a, x = Some a ∧ is_Some (f a).
Proof.
  destruct x as [a|]; cbn [mbind option_bind].
  - split; [intros Hf; by exists a|]. by intros (b & [= <-] & Hb).
  - split; [by intros [??]|]. by intros (b & Hb & _).
Qed.

(** Where the insertions of a loop end up, given what each turn gives. *)
Lemma concat_mapM_shape {A} (f : A → option (list insertion)) (g : A → nat)
    (P : insertion → Prop) (l : list A) (k : list (list insertion)) :
  (∀ x y, f x = Some y → Forall P y ∧ length y = g x) →
  mapM f l = Some k →
  Forall P (concat k) ∧ length (concat k) = sum_list (g <$> l).
Proof.
  intros Hf Hk. apply mapM_Some_1 in Hk.
  induction Hk as [|x y l k Hxy _ [IHP IHlen]]; [by split; [constructor|]|].
  destruct (Hf x y Hxy) as [HP Hlen]. cbn [concat fmap list_fmap sum_list sum_list_with].
  split; [by apply Forall_app|]. by rewrite length_app, Hlen, IHlen.
Qed.

(** What the insertions of a loop are about, given what each turn gives. *)
Lemma concat_mapM_objects {A} (f : A → option (list insertion)) (g : A → list object)
    (l : list A) (k : list (list insertion)) :
  (∀ x y, f x = Some y → insertion_objects y = Some <$> g x) →
  mapM f l = Some k →
  insertion_objects (concat k) = Some <$> concat (g <$> l).
Proof.
  intros Hf Hk. apply mapM_Some_1 in Hk.
  induction Hk as [|x y l k Hxy _ IH]; [done|].
  rewrite fmap_cons. cbn [concat]. unfold insertion_objects in *.
  by rewrite !fmap_app, IH, (Hf x y Hxy).
Qed.

Section SinkFacts.

Variable h : Header.t.
Variable catalog : Catalog.t.
Variable acc : BackendStatsContext.t.
Variable ts : Z.

Local Abbreviation sound :=
  (λ i : insertion, well_placed h catalog ts i ∧ tuple_reports (read_counter acc) i.2).
Local Abbreviation metric :=
  (λ i : insertion, sound i ∧ is_query_tuple i.2 = false).

Lemma UpdateIndexMetrics_shape database table rows :
  Sink.UpdateIndexMetrics h catalog acc ts database table = Some rows →
  Forall metric rows ∧ length rows = length (DataTable.indexes table).
Proof.
  unfold Sink.UpdateIndexMetrics.
  destruct (Sink.GetMetricTable h catalog (Header.INDEX_METRIC_NAME h)) as [it|] eqn:Hit;
    [|done].
  cbn [mbind option_bind]. intros [= <-]. split; [|by rewrite length_fmap].
  apply Forall_fmap, Forall_forall. intros index _. by repeat split.
Qed.

Lemma table_turn_shape tt database table rows :
  Sink.GetMetricTable h catalog (Header.TABLE_METRIC_NAME h) = Some tt →
  Sink.table_turn h catalog acc ts tt database table = Some rows →
  Forall metric rows ∧ length rows = S (length (DataTable.indexes table)).
Proof.
  intros Htt. unfold Sink.table_turn.
  destruct (Sink.UpdateIndexMetrics h catalog acc ts database table) as [ix|] eqn:Hix;
    [|done].
  cbn [mbind option_bind]. intros [= <-].
  apply UpdateIndexMetrics_shape in Hix as [HP Hlen]. cbn [length]. split; [|lia].
  constructor; [|done]. by repeat split.
Qed.

Lemma UpdateTableMetrics_shape database rows :
  Sink.UpdateTableMetrics h catalog acc ts database = Some rows →
  Forall metric rows
  ∧ length rows
    = sum_list ((λ t, S (length (DataTable.indexes t))) <$> Database.tables database).
Proof.
  unfold Sink.UpdateTableMetrics.
  destruct (Sink.GetMetricTable h catalog (Header.TABLE_METRIC_NAME h)) as [tt|] eqn:Htt;
    [|done].
  cbn [mbind option_bind].
  destruct (mapM _ (Database.tables database)) as [per_table|] eqn:Hper; [|done].
  cbn [mbind option_bind]. intros [= <-].
  apply (concat_mapM_shape _ (λ t, S (length (DataTable.indexes t))) metric _ _) in Hper;
    [done|].
  intros table y. by apply table_turn_shape.
Qed.

Lemma database_turn_shape dt database rows :
  Sink.GetMetricTable h catalog (Header.DATABASE_METRIC_NAME h) = Some dt →
  Sink.database_turn h catalog acc ts dt database = Some rows →
  Forall metric rows
  ∧ length rows
    = S (sum_list ((λ t, S (length (DataTable.indexes t))) <$> Database.tables database)).
Proof.
  intros Hdt. unfold Sink.database_turn.
  destruct (Sink.UpdateTableMetrics h catalog acc ts database) as [tr|] eqn:Htr; [|done].
  cbn [mbind option_bind]. intros [= <-].
  apply UpdateTableMetrics_shape in Htr as [HP Hlen]. cbn [length]. split; [|lia].
  constructor; [|done]. by repeat split.
Qed.

Lemma query_tuple_is_Some q :
  is_Some (Sink.query_tuple h ts q) ↔ params_ok h q.
Proof.
  unfold Sink.query_tuple, params_ok.
  destruct (Header.GetQueryParams h q) as [p|].
  - case_decide; split.
    + done.
    + intros _. by eexists.
    + by intros [??].
    + done.
  - split; [done|]. intros _. by eexists.
Qed.

Lemma query_turn_is_Some qt q :
  is_Some (Sink.query_turn h ts qt q) ↔ params_ok h q.
Proof.
  unfold Sink.query_turn. rewrite bind_is_Some, <-query_tuple_is_Some. split.
  - intros (t & -> & _). by eexists.
  - intros [t ->]. exists t. split; [done|by eexists].
Qed.

Lemma UpdateQueryMetrics_shape rows :
  Sink.UpdateQueryMetrics h catalog acc ts = Some rows →
  Forall sound rows
  ∧ length rows = length (BackendStatsContext.completed_query_metrics_ acc).
Proof.
  unfold Sink.UpdateQueryMetrics.
  destruct (Sink.GetMetricTable h catalog (Header.QUERY_METRIC_NAME h)) as [qt|] eqn:Hqt;
    [|done].
  cbn [mbind option_bind]. intros Hrows. split; [|symmetry; by eapply length_mapM].
  apply mapM_Some_1 in Hrows.
  induction Hrows as [|q row l k Hq _ IH]; constructor; [|done].
  unfold Sink.query_turn, Sink.query_tuple in Hq.
  destruct (Header.GetQueryParams h q) as [p|]; [case_decide; [|done]|];
    cbn [mbind option_bind] in Hq; injection Hq as <-; by repeat split.
Qed.

Lemma sum_list_fmap_cons {A} (g : A → nat) (x : A) (l : list A) :
  sum_list (g <$> x :: l) = (g x + sum_list (g <$> l))%nat.
Proof. reflexivity. Qed.

Lemma count_rows_of_catalog :
  sum_list ((λ d, S (sum_list ((λ t, S (length (DataTable.indexes t))) <$> Database.tables d)))
              <$> Catalog.databases catalog)
  = (length (Catalog.databases catalog) + count_tables catalog + count_indexes catalog)%nat.
Proof.
  unfold count_tables, count_indexes.
  assert (∀ tl : list DataTable.t,
            sum_list ((λ t, S (length (DataTable.indexes t))) <$> tl)
            = (length tl + sum_list ((λ t, length (DataTable.indexes t)) <$> tl))%nat)
    as Htables.
  { induction tl as [|t tl IH]; [done|].
    rewrite !sum_list_fmap_cons, IH. cbn [length]. lia. }
  induction (Catalog.databases catalog) as [|d ds IH]; [done|].
  rewrite !sum_list_fmap_cons, IH, Htables. cbn [length]. lia.
Qed.

Lemma UpdateIndexMetrics_objects database table rows :
  Sink.UpdateIndexMetrics h catalog acc ts database table = Some rows →
  insertion_objects rows
  = Some <$> ((λ i, IndexObject (Database.GetOid database) (DataTable.GetOid table)
                      (Index.GetOid i)) <$> DataTable.indexes table).
Proof.
  unfold Sink.UpdateIndexMetrics.
  destruct (Sink.GetMetricTable h catalog (Header.INDEX_METRIC_NAME h)) as [it|]; [|done].
  cbn [mbind option_bind]. intros [= <-]. unfold insertion_objects.
  induction (DataTable.indexes table) as [|i l IH]; [done|].
  rewrite !fmap_cons, IH. done.
Qed.

Lemma table_turn_objects tt database table rows :
  Sink.table_turn h catalog acc ts tt database table = Some rows →
  insertion_objects rows = Some <$> table_objects database table.
Proof.
  unfold Sink.table_turn.
  destruct (Sink.UpdateIndexMetrics h catalog acc ts database table) as [ix|] eqn:Hix;
    [|done].
  cbn [mbind option_bind]. intros [= <-]. apply UpdateIndexMetrics_objects in Hix.
  unfold table_objects. rewrite fmap_cons, <-Hix. done.
Qed.

Lemma UpdateTableMetrics_objects database rows :
  Sink.UpdateTableMetrics h catalog acc ts database = Some rows →
  insertion_objects rows
  = Some <$> concat (table_objects database <$> Database.tables database).
Proof.
  unfold Sink.UpdateTableMetrics.
  destruct (Sink.GetMetricTable h catalog (Header.TABLE_METRIC_NAME h)) as [tt|]; [|done].
  cbn [mbind option_bind].
  destruct (mapM _ (Database.tables database)) as [per_table|] eqn:Hper; [|done].
  cbn [mbind option_bind]. intros [= <-].
  apply (concat_mapM_objects _ (table_objects database)) in Hper; [done|].
  intros table y. apply table_turn_objects.
Qed.

Lemma database_turn_objects dt database rows :
  Sink.database_turn h catalog acc ts dt database = Some rows →
  insertion_objects rows = Some <$> database_objects database.
Proof.
  unfold Sink.database_turn.
  destruct (Sink.UpdateTableMetrics h catalog acc ts database) as [tr|] eqn:Htr; [|done].
  cbn [mbind option_bind]. intros [= <-]. apply UpdateTableMetrics_objects in Htr.
  unfold database_objects. rewrite fmap_cons, <-Htr. done.
Qed.

(** [UpdateMetrics] writes the tuples of the databases, tables and indexes,
    then those of the completed queries. *)
Lemma UpdateMetrics_split (rows : list insertion) :
  Sink.UpdateMetrics h catalog acc ts = Some rows →
  ∃ metrics queries,
    rows = metrics ++ queries
    ∧ Forall metric metrics
    ∧ length metrics
      = (length (Catalog.databases catalog) + count_tables catalog
         + count_indexes catalog)%nat
    ∧ Sink.UpdateQueryMetrics h catalog acc ts = Some queries
    ∧ insertion_objects metrics = Some <$> catalog_objects catalog.
Proof.
  unfold Sink.UpdateMetrics.
  destruct (Sink.GetMetricTable h catalog (Header.DATABASE_METRIC_NAME h)) as [dt|] eqn:Hdt;
    [|done].
  cbn [mbind option_bind].
  destruct (mapM _ (Catalog.databases catalog)) as [per_database|] eqn:Hper; [|done].
  cbn [mbind option_bind].
  destruct (Sink.UpdateQueryMetrics h catalog acc ts) as [qs|] eqn:Hqs; [|done].
  cbn [mbind option_bind]. intros [= <-]. exists (concat per_database), qs.
  assert (insertion_objects (concat per_database) = Some <$> catalog_objects catalog)
    as Hobjects.
  { apply (concat_mapM_objects _ database_objects _ _) in Hper; [done|].
    intros database y. apply database_turn_objects. }
  apply (concat_mapM_shape _
           (λ d, S (sum_list ((λ t, S (length (DataTable.indexes t))) <$> Database.tables d)))
           metric)
    in Hper as [HP Hlen].
  - by rewrite Hlen, count_rows_of_catalog.
  - intros database y. by apply database_turn_shape.
Qed.

(** X16. When [UpdateMetrics] returns, its transaction holds exactly one
    insertion for each database of the catalog, each table and each index, in
    the order of the nested loops (a database, then each of its tables
    followed by the indexes of that table), and after them one insertion for
    each completed query in the accumulator's queue, in the order of the
    queue; each tuple goes into the metric table of its kind as
    [GetMetricTable] finds it, all carry the one time stamp read at the
    start, and the counters of every database, table and index tuple are
    those the accumulator holds for that object. *)
Theorem UpdateMetrics_transaction (rows : list insertion) :
  Sink.UpdateMetrics h catalog acc ts = Some rows →
  (∃ metrics queries,
     rows = metrics ++ queries
     ∧ insertion_objects metrics = Some <$> catalog_objects catalog
     ∧ Forall2 (λ q i, Sink.query_tuple h ts q = Some i.2)
         (BackendStatsContext.completed_query_metrics_ acc) queries)
  ∧ Forall (λ i, well_placed h catalog ts i ∧ tuple_reports (read_counter acc) i.2) rows
  ∧ length rows
    = (length (Catalog.databases catalog) + count_tables catalog + count_indexes catalog
       + length (BackendStatsContext.completed_query_metrics_ acc))%nat.
Proof.
  intros Hrows.
  apply UpdateMetrics_split in Hrows
    as (metrics & queries & -> & Hmetrics & Hlen & Hq & Hobjects).
  pose proof (UpdateQueryMetrics_shape _ Hq) as [Hqs Hqlen]. split; [|split].
  - exists metrics, queries. split; [done|]. split; [done|].
    unfold Sink.UpdateQueryMetrics in Hq.
    destruct (Sink.GetMetricTable h catalog (Header.QUERY_METRIC_NAME h)) as [qt|]; [|done].
    cbn [mbind option_bind] in Hq. apply mapM_Some_1 in Hq.
    eapply Forall2_impl; [exact Hq|]. intros q i Hi. unfold Sink.query_turn in Hi.
    destruct (Sink.query_tuple h ts q) as [t|]; [|done].
    cbn [mbind option_bind] in Hi. apply (inj Some) in Hi. by subst i.
  - apply Forall_app. split; [|done]. eapply Forall_impl; [exact Hmetrics|]. by intros i [??].
  - rewrite length_app. lia.
Qed.

Lemma UpdateIndexMetrics_is_Some database table :
  is_Some (Sink.UpdateIndexMetrics h catalog acc ts database table)
  ↔ is_Some (Sink.GetMetricTable h catalog (Header.INDEX_METRIC_NAME h)).
Proof.
  unfold Sink.UpdateIndexMetrics. rewrite bind_is_Some. split.
  - intros (it & -> & _). by eexists.
  - intros [it ->]. exists it. split; [done|by eexists].
Qed.

Lemma table_turn_is_Some tt database table :
  is_Some (Sink.table_turn h catalog acc ts tt database table)
  ↔ is_Some (Sink.GetMetricTable h catalog (Header.INDEX_METRIC_NAME h)).
Proof.
  unfold Sink.table_turn. rewrite bind_is_Some, <-(UpdateIndexMetrics_is_Some database table).
  split.
  - intros (ix & -> & _). by eexists.
  - intros [ix ->]. exists ix. split; [done|by eexists].
Qed.

Lemma UpdateTableMetrics_is_Some database :
  is_Some (Sink.UpdateTableMetrics h catalog acc ts database)
  ↔ is_Some (Sink.GetMetricTable h catalog (Header.TABLE_METRIC_NAME h))
    ∧ (Database.tables database ≠ [] →
       is_Some (Sink.GetMetricTable h catalog (Header.INDEX_METRIC_NAME h))).
Proof.
  unfold Sink.UpdateTableMetrics. rewrite bind_is_Some. split.
  - intros (tt & Htt & Hrest). rewrite Htt. split; [by eexists|]. intros Hne.
    apply bind_is_Some in Hrest as (per & Hper & _).
    assert (is_Some (mapM (Sink.table_turn h catalog acc ts tt database)
                       (Database.tables database))) as Hall by (by eexists).
    apply mapM_is_Some_1 in Hall.
    destruct (Database.tables database) as [|t tl]; [done|].
    apply Forall_cons in Hall as [Ht _]. by apply (table_turn_is_Some tt database t).
  - intros [[tt Htt] Hix]. exists tt. split; [done|]. apply bind_is_Some.
    assert (is_Some (mapM (Sink.table_turn h catalog acc ts tt database)
                       (Database.tables database))) as [per Hper].
    { apply mapM_is_Some_2, Forall_forall. intros t Ht. cbn [compose].
      apply table_turn_is_Some, Hix. intros Hnil. rewrite Hnil in Ht.
      by apply elem_of_nil in Ht. }
    exists per. split; [exact Hper|by eexists].
Qed.

Lemma UpdateQueryMetrics_is_Some :
  is_Some (Sink.UpdateQueryMetrics h catalog acc ts)
  ↔ is_Some (Sink.GetMetricTable h catalog (Header.QUERY_METRIC_NAME h))
    ∧ Forall (params_ok h) (BackendStatsContext.completed_query_metrics_ acc).
Proof.
  unfold Sink.UpdateQueryMetrics. rewrite bind_is_Some. split.
  - intros (qt & -> & Hall). split; [by eexists|].
    apply mapM_is_Some_1 in Hall. eapply Forall_impl; [exact Hall|].
    intros q Hq. by apply (query_turn_is_Some qt q).
  - intros [[qt ->] Hall]. exists qt. split; [done|].
    apply mapM_is_Some_2. eapply Forall_impl; [exact Hall|].
    intros q Hq. by apply (query_turn_is_Some qt q).
Qed.

Lemma GetMetricTable_databases table_name :
  is_Some (Sink.GetMetricTable h catalog table_name) → Catalog.databases catalog ≠ [].
Proof.
  unfold Sink.GetMetricTable, Catalog.GetDatabaseCount. case_decide as Hcount.
  - intros _ Hnil. rewrite Hnil in Hcount. cbn [length] in Hcount. lia.
  - by intros [??].
Qed.

(** X17. [UpdateMetrics] runs to its end exactly when the catalog database
    holds the database, table and query metric tables, holds the index
    metric table too if some database of the catalog has a table, and every
    completed query in the accumulator's queue either has no parameters or a
    positive number of them; otherwise one of the assertions of
    [GetMetricTable] or of [UpdateQueryMetrics] fails. The table metric table
    is needed even when no database has a table: a catalog that passes
    [GetMetricTable] has a database, and [UpdateTableMetrics] looks the table
    up before it loops. *)
Theorem UpdateMetrics_returns_iff :
  is_Some (Sink.UpdateMetrics h catalog acc ts)
  ↔ is_Some (Sink.GetMetricTable h catalog (Header.DATABASE_METRIC_NAME h))
    ∧ is_Some (Sink.GetMetricTable h catalog (Header.TABLE_METRIC_NAME h))
    ∧ ((∃ d, d ∈ Catalog.databases catalog ∧ Database.tables d ≠ []) →
       is_Some (Sink.GetMetricTable h catalog (Header.INDEX_METRIC_NAME h)))
    ∧ is_Some (Sink.GetMetricTable h catalog (Header.QUERY_METRIC_NAME h))
    ∧ Forall (params_ok h) (BackendStatsContext.completed_query_metrics_ acc).
Proof.
  unfold Sink.UpdateMetrics. rewrite bind_is_Some. split.
  - intros (dt & Hdt & Hrest).
    apply bind_is_Some in Hrest as (per & Hper & Hrest).
    apply bind_is_Some in Hrest as (qs & Hqs & _).
    assert (is_Some (mapM (Sink.database_turn h catalog acc ts dt)
                       (Catalog.databases catalog))) as Hall by (by eexists).
    apply mapM_is_Some_1 in Hall.
    assert (∀ d, d ∈ Catalog.databases catalog →
                 is_Some (Sink.UpdateTableMetrics h catalog acc ts d)) as Hdb.
    { intros d Hd. apply (proj1 (Forall_forall _ _) Hall) in Hd. cbn [compose] in Hd.
      unfold Sink.database_turn in Hd. apply bind_is_Some in Hd as (tr & -> & _).
      by eexists. }
    assert (is_Some (Sink.UpdateQueryMetrics h catalog acc ts)) as Hq by (by eexists).
    apply UpdateQueryMetrics_is_Some in Hq as [Hqt Hparams].
    split; [by eexists|]. split; [|split; [|done]].
    + pose proof (GetMetricTable_databases _ (ex_intro _ dt Hdt)) as Hne.
      destruct (Catalog.databases catalog) as [|d ds] eqn:Hds; [done|].
      apply (UpdateTableMetrics_is_Some d), Hdb. by left.
    + intros (d & Hd & Htables). by apply (UpdateTableMetrics_is_Some d); [apply Hdb|].
  - intros ([dt Hdt] & Htt & Hit & Hqt & Hparams). exists dt. split; [done|].
    assert (is_Some (mapM (Sink.database_turn h catalog acc ts dt)
                       (Catalog.databases catalog))) as [per Hper].
    { apply mapM_is_Some_2, Forall_forall. intros d Hd. cbn [compose].
      unfold Sink.database_turn. apply bind_is_Some.
      destruct (proj2 (UpdateTableMetrics_is_Some d)) as [tr Htr].
      - split; [done|]. intros Hne. apply Hit. by exists d.
      - exists tr. split; [done|by eexists]. }
    apply bind_is_Some. exists per. split; [done|].
    destruct (proj2 UpdateQueryMetrics_is_Some (conj Hqt Hparams)) as [qs Hqs].
    apply bind_is_Some. exists qs. split; [done|by eexists].
Qed.

End SinkFacts.

Lemma UpdateMetrics_transaction_witness :
  ∃ rows, Sink.UpdateMetrics sample_header sample_catalog (txns 3 10 2) 1234 = Some rows
    ∧ ((∃ metrics queries,
          rows = metrics ++ queries
          ∧ insertion_objects metrics = Some <$> catalog_objects sample_catalog
          ∧ Forall2 (λ q i, Sink.query_tuple sample_header 1234 q = Some i.2)
              (BackendStatsContext.completed_query_metrics_ (txns 3 10 2)) queries)
       ∧ Forall (λ i, well_placed sample_header sample_catalog 1234 i
                      ∧ tuple_reports (read_counter (txns 3 10 2)) i.2) rows
       ∧ length rows
         = (length (Catalog.databases sample_catalog) + count_tables sample_catalog
            + count_indexes sample_catalog
            + length (BackendStatsContext.completed_query_metrics_ (txns 3 10 2)))%nat)
    ∧ insertion_objects rows
      = Some <$> [ DatabaseObject 0; TableObject 0 100; TableObject 0 101; TableObject 0 102;
                   TableObject 0 103; DatabaseObject 3; TableObject 3 7; IndexObject 3 7 70;
                   IndexObject 3 7 71 ].
Proof.
  eexists. split; [vm_compute; reflexivity|]. split; [|vm_compute; reflexivity].
  apply (UpdateMetrics_transaction sample_header sample_catalog (txns 3 10 2) 1234).
  vm_compute. reflexivity.
Defined.

(** A catalog without databases fails the first assertion. *)
Example UpdateMetrics_empty_catalog :
  Sink.UpdateMetrics sample_header (Catalog.Build []) (txns 3 10 2) 1234 = None.
Proof. reflexivity. Qed.

(** ** The complete cycle *)

Section CompleteFacts.

Variable h : Header.t.

Local Abbreviation M := (Header.STATS_AGGREGATION_INTERVAL_MS h).

(** What a complete cycle is made of, when it returns. *)
Lemma Complete_Aggregate_Some catalog ts s l ofs r :
  Complete.Aggregate h catalog ts s l ofs = Some r →
  r.1.1 = StatsAggregator.Aggregate M s l
  ∧ Sink.UpdateMetrics h catalog
      (StatsAggregator.aggregated_stats_ (StatsAggregator.merge_contexts s)) ts
    = Some r.1.2
  ∧ ∃ due : bool,
      Complete.log_due h (StatsAggregator.interval_cnt (StatsAggregator.Aggregate M s l).1.2)
      = Some due
      ∧ r.2 = ofs ++
              (if due
               then [Complete.LogRecord
                       (StatsAggregator.interval_cnt (StatsAggregator.Aggregate M s l).1.2)
                       (StatsAggregator.aggregated_stats_ (StatsAggregator.Aggregate M s l).1.1)
                       (StatsAggregator.moving_avg_throughput
                          (StatsAggregator.Aggregate M s l).2)
                       (StatsAggregator.avg_throughput_ (StatsAggregator.Aggregate M s l).2)
                       (StatsAggregator.throughput_ (StatsAggregator.Aggregate M s l).2)]
               else []).
Proof.
  unfold Complete.Aggregate. cbv zeta.
  change (StatsAggregator.aggregated_stats_
            (StatsAggregator.set_total_prev_txn_committed_ ?c ?x))
    with (StatsAggregator.aggregated_stats_ x).
  destruct (Sink.UpdateMetrics h catalog
              (StatsAggregator.aggregated_stats_ (StatsAggregator.merge_contexts s)) ts)
    as [txn|] eqn:Htxn; [|done].
  cbn [mbind option_bind StatsAggregator.interval_cnt].
  destruct (Complete.log_due h (Int64.incr (StatsAggregator.interval_cnt l)))
    as [due|] eqn:Hdue; [|done].
  cbn [mbind option_bind]. intros Hr. apply (inj Some) in Hr. subst r.
  split; [reflexivity|]. split; [reflexivity|]. exists due. split; [exact Hdue|].
  cbn [snd]. destruct due; [reflexivity|by rewrite app_nil_r].
Qed.

(** X18. When a complete cycle returns, its aggregator, locals and figures
    are those of the cycle described before; every database, table and index
    tuple of its transaction carries, counter by counter, what the history
    and the registered contexts other than the aggregation thread's own hold
    for that object, goes into the metric table of its kind and carries the
    time stamp of the cycle. *)
Theorem cycle_writes_merged_counters (catalog : Catalog.t) (ts : Z) (s : StatsAggregator.t)
    (l : StatsAggregator.locals) (ofs : list Complete.log_record)
    (r : StatsAggregator.t * StatsAggregator.locals * StatsAggregator.figures
         * list insertion * list Complete.log_record) :
  Complete.Aggregate h catalog ts s l ofs = Some r →
  r.1.1 = StatsAggregator.Aggregate M s l
  ∧ Forall (λ i, well_placed h catalog ts i
                 ∧ tuple_reports
                     (λ k, read_counter (StatsAggregator.stats_history_ s) k
                           + live_total (delete (StatsAggregator.get_id s)
                                           (StatsAggregator.backend_stats_ s)) k)
                     i.2)
      r.1.2.
Proof.
  intros Hr. apply Complete_Aggregate_Some in Hr as (Hagg & Htxn & _).
  split; [done|].
  apply UpdateMetrics_split in Htxn as (metrics & queries & -> & Hmetrics & _ & Hq & _).
  apply UpdateQueryMetrics_shape in Hq as [Hqs _].
  assert (∀ t, tuple_reports
                 (read_counter
                    (StatsAggregator.aggregated_stats_ (StatsAggregator.merge_contexts s))) t →
               tuple_reports
                 (λ k, read_counter (StatsAggregator.stats_history_ s) k
                       + live_total (delete (StatsAggregator.get_id s)
                                       (StatsAggregator.backend_stats_ s)) k) t) as Hmerged.
  { intros t Ht. destruct t; cbn [tuple_reports] in *;
      rewrite <-?merge_contexts_aggregated; exact Ht. }
  apply Forall_app. split.
  - eapply Forall_impl; [exact Hmetrics|]. intros i [[Hplaced Hreports] _].
    split; [done|]. by apply Hmerged.
  - eapply Forall_impl; [exact Hqs|]. intros i [Hplaced Hreports].
    split; [done|]. by apply Hmerged.
Qed.

End CompleteFacts.

Lemma gathered_after_cycle M s l :
  gathered_queries (StatsAggregator.Aggregate M s l).1.1 = [].
Proof.
  unfold gathered_queries. rewrite Aggregate_history, Aggregate_get_id.
  change (BackendStatsContext.completed_query_metrics_
            (drained (StatsAggregator.stats_history_ s))) with (@nil QueryMetric.t).
  rewrite app_nil_r.
  assert (Forall (λ val : thread_id * BackendStatsContext.t,
                    (if decide (val.1 ≠ StatsAggregator.get_id s)
                     then BackendStatsContext.completed_query_metrics_ val.2 else []) = [])
            (map_to_list
               (StatsAggregator.backend_stats_ (StatsAggregator.Aggregate M s l).1.1)))
    as Hall.
  { apply Forall_forall. intros [id c'] Hin. apply elem_of_map_to_list in Hin.
    rewrite Aggregate_registry, merge_contexts_registry in Hin. cbn [fst snd].
    case_decide as Hne; [|done].
    destruct (StatsAggregator.backend_stats_ s !! id) as [c|]; [|done].
    cbn [fmap option_fmap option_map] in Hin. apply (inj Some) in Hin. subst c'.
    unfold visited. by rewrite decide_True. }
  induction Hall as [|val vs Hval _ IH]; [done|].
  rewrite fmap_cons. cbn [concat]. by rewrite Hval, IH.
Qed.

Section CompleteRuns.

Variable h : Header.t.

Local Abbreviation M := (Header.STATS_AGGREGATION_INTERVAL_MS h).
Local Abbreviation N := (Header.STATS_LOG_INTERVALS h).

(** X19. When a complete cycle returns, its transaction is the tuples of
    the databases, tables and indexes followed by one tuple, in the query
    metric table, for each completed query the cycle gathered, in the order
    gathered: those queued in the registered contexts other than the
    aggregation thread's own, then those queued in the history. After the
    cycle nothing is left to gather: a completed query is written by one
    cycle only. *)
Theorem cycle_writes_gathered_queries (catalog : Catalog.t) (ts : Z)
    (s : StatsAggregator.t) (l : StatsAggregator.locals) (ofs : list Complete.log_record)
    (r : StatsAggregator.t * StatsAggregator.locals * StatsAggregator.figures
         * list insertion * list Complete.log_record) :
  Complete.Aggregate h catalog ts s l ofs = Some r →
  (∃ metrics queries,
     r.1.2 = metrics ++ queries
     ∧ Forall (λ i, is_query_tuple i.2 = false) metrics
     ∧ Forall2 (λ q i, Sink.query_tuple h ts q = Some i.2
                       ∧ Sink.GetMetricTable h catalog (Header.QUERY_METRIC_NAME h)
                         = Some i.1)
         (gathered_queries s) queries)
  ∧ gathered_queries r.1.1.1.1 = [].
Proof.
  intros Hr. apply Complete_Aggregate_Some in Hr as (Hagg & Htxn & _). split.
  - apply UpdateMetrics_split in Htxn
      as (metrics & queries & Hrows & Hmetrics & _ & Hq & _).
    exists metrics, queries. split; [done|]. split.
    { eapply Forall_impl; [exact Hmetrics|]. by intros i [_ ?]. }
    unfold Sink.UpdateQueryMetrics in Hq. rewrite merge_contexts_queue in Hq.
    destruct (Sink.GetMetricTable h catalog (Header.QUERY_METRIC_NAME h)) as [qt|]; [|done].
    cbn [mbind option_bind] in Hq. apply mapM_Some_1 in Hq.
    eapply Forall2_impl; [exact Hq|]. intros q i Hi. unfold Sink.query_turn in Hi.
    destruct (Sink.query_tuple h ts q) as [t|]; [|done].
    cbn [mbind option_bind] in Hi. apply (inj Some) in Hi. by subst i.
  - rewrite Hagg. apply gathered_after_cycle.
Qed.

Lemma log_due_Some cnt due :
  Complete.log_due h cnt = Some due → due = (Z.rem cnt N =? 0).
Proof.
  unfold Complete.log_due. destruct (N =? 0); [done|].
  destruct ((cnt =? - Int64.half_modulus) && (N =? -1)); [done|]. by intros [= <-].
Qed.

Lemma Complete_loop_facts (ws : list Complete.waking) s l log txns ofs o :
  Complete.RunAggregator_loop h ws s l log txns ofs = Some o →
  RunAggregator_loop M (Complete.the_wake <$> ws) s l log = Some (Complete.the_run o)
  ∧ (length (Complete.transactions o) + length log
     = length txns + length (traced (Complete.the_run o)))%nat
  ∧ ∃ new added,
      Complete.ofs_ o = ofs ++ new
      ∧ traced (Complete.the_run o) = log ++ added
      ∧ (StatsAggregator.interval_cnt l = Z.of_nat (length log) →
         Z.of_nat (length log + length ws) < Int64.half_modulus →
         record_figures <$> new = due_records N (length log) added).
Proof.
  revert s l log txns ofs o. induction ws as [|w ws IH]; intros s l log txns ofs o Ho.
  - apply (inj Some) in Ho. subst o.
    cbn [Complete.the_run Complete.transactions Complete.ofs_ traced fmap list_fmap
         RunAggregator_loop].
    split; [done|]. split; [lia|]. exists [], []. by rewrite !app_nil_r.
  - cbn [Complete.RunAggregator_loop] in Ho. rewrite fmap_cons. cbn [RunAggregator_loop].
    destruct (run_ops (during (Complete.the_wake w)) s) as [s1|]; [|done].
    cbn [mbind option_bind] in Ho |- *.
    destruct (is_timeout (status (Complete.the_wake w))
              && StatsAggregator.is_aggregating_ s1).
    + destruct (Complete.Aggregate h (Complete.catalog_then w) (Complete.clock_then w)
                  s1 l ofs) as [r|] eqn:Hr; [|done].
      cbn [mbind option_bind] in Ho.
      apply Complete_Aggregate_Some in Hr as (Hagg & _ & due & Hdue & Hofs).
      apply IH in Ho as (Hrun & Hlen & new & added & Hnew & Hadded & Hrecords).
      rewrite Hagg in Hrun, Hlen, Hadded, Hrecords.
      split; [exact Hrun|]. rewrite !length_app in Hlen. cbn [length] in Hlen.
      split; [lia|].
      set (a := StatsAggregator.Aggregate M s1 l) in *.
      exists ((if due
               then [Complete.LogRecord (StatsAggregator.interval_cnt a.1.2)
                       (StatsAggregator.aggregated_stats_ a.1.1)
                       (StatsAggregator.moving_avg_throughput a.2)
                       (StatsAggregator.avg_throughput_ a.2)
                       (StatsAggregator.throughput_ a.2)]
               else []) ++ new), (a.2 :: added).
      split; [by rewrite Hnew, Hofs, <-app_assoc|].
      split; [by rewrite Hadded, <-app_assoc|].
      intros Hcnt Hbound. cbn [length] in Hbound.
      assert (StatsAggregator.interval_cnt a.1.2 = Z.of_nat (S (length log))) as Hcnt'.
      { unfold a. rewrite Aggregate_frame. cbn [StatsAggregator.interval_cnt].
        unfold Int64.incr, Int64.add. rewrite wrap_in_range; [lia|].
        unfold Int64.in_range, Int64.half_modulus in *. lia. }
      rewrite fmap_app, Hrecords.
      * cbn [due_records]. f_equal; [|by rewrite length_app, Nat.add_1_r].
        apply log_due_Some in Hdue. rewrite Hcnt' in Hdue. rewrite <-Hdue.
        destruct due; [|done]. cbn [fmap list_fmap]. unfold record_figures.
        cbn [Complete.at_interval Complete.logged_weighted Complete.logged_average
             Complete.logged_current]. by rewrite Hcnt'.
      * rewrite Hcnt', length_app. cbn [length]. f_equal. lia.
      * rewrite length_app. cbn [length]. lia.
    + apply (inj Some) in Ho. subst o.
      cbn [Complete.the_run Complete.transactions Complete.ofs_ traced].
      split; [done|]. split; [lia|]. exists [], []. by rewrite !app_nil_r.
Qed.

(** X20. A complete run that returns is a run of the loop described before
    on the same wakes: same aggregator, same locals, same figures, same
    exit. It commits one transaction for each cycle, and it only appends to
    the durable log. *)
Theorem complete_run_refines (ws : list Complete.waking) (s : StatsAggregator.t)
    (ofs : list Complete.log_record) (o : Complete.outcome) :
  Complete.RunAggregator h ws s ofs = Some o →
  RunAggregator M (Complete.the_wake <$> ws) s = Some (Complete.the_run o)
  ∧ length (Complete.transactions o) = length (traced (Complete.the_run o))
  ∧ ofs `prefix_of` Complete.ofs_ o.
Proof.
  intros Ho. apply Complete_loop_facts in Ho as (Hrun & Hlen & new & added & Hnew & _).
  split; [exact Hrun|]. cbn [length] in Hlen. split; [lia|].
  rewrite Hnew. by apply prefix_app_r.
Qed.

(** X21. The durable log gets a record from exactly the cycles whose number,
    counted from one in the run, is a multiple of [STATS_LOG_INTERVALS], in
    order, each with the interval count and the three throughput figures of
    its cycle (for a run short enough for the count not to overflow). *)
Theorem log_every_n_cycles (ws : list Complete.waking) (s : StatsAggregator.t)
    (ofs : list Complete.log_record) (o : Complete.outcome) :
  Complete.RunAggregator h ws s ofs = Some o →
  Z.of_nat (length ws) < Int64.half_modulus →
  ∃ new, Complete.ofs_ o = ofs ++ new
    ∧ record_figures <$> new = due_records N 0 (traced (Complete.the_run o)).
Proof.
  intros Ho Hbound.
  apply Complete_loop_facts in Ho as (_ & _ & new & added & Hnew & Hadded & Hrecords).
  exists new. split; [done|]. cbn [app] in Hadded. rewrite Hadded.
  apply Hrecords; [done|]. cbn [length]. lia.
Qed.

End CompleteRuns.

Lemma cycle_writes_merged_counters_witness :
  ∃ r, Complete.Aggregate sample_header sample_catalog 1234 scenario_queries first_locals []
       = Some r
    ∧ r.1.1 = StatsAggregator.Aggregate 1000 scenario_queries first_locals
    ∧ Forall (λ i, well_placed sample_header sample_catalog 1234 i
                   ∧ tuple_reports
                       (λ k, read_counter (StatsAggregator.stats_history_ scenario_queries) k
                             + live_total
                                 (delete (StatsAggregator.get_id scenario_queries)
                                    (StatsAggregator.backend_stats_ scenario_queries)) k)
                       i.2)
        r.1.2
    ∧ r.1.2 !! 5%nat
      = Some (DataTable.Build 100 "database_metric" [], DatabaseMetricsTuple 3 10 2 1234).
Proof.
  eexists. split; [vm_compute; reflexivity|].
  match goal with
  | |- ?A ∧ ?B ∧ ?C =>
      cut (A ∧ B); [intros [Ha Hb]; split; [exact Ha|split; [exact Hb|reflexivity]]|]
  end.
  apply (cycle_writes_merged_counters sample_header sample_catalog 1234 scenario_queries
           first_locals []).
  vm_compute. reflexivity.
Defined.

Lemma cycle_writes_gathered_queries_witness :
  ∃ r, Complete.Aggregate sample_header sample_catalog 1234 scenario_queries first_locals []
       = Some r
    ∧ ((∃ metrics queries,
          r.1.2 = metrics ++ queries
          ∧ Forall (λ i, is_query_tuple i.2 = false) metrics
          ∧ Forall2 (λ q i, Sink.query_tuple sample_header 1234 q = Some i.2
                            ∧ Sink.GetMetricTable sample_header sample_catalog
                                (Header.QUERY_METRIC_NAME sample_header) = Some i.1)
              (gathered_queries scenario_queries) queries)
       ∧ gathered_queries r.1.1.1.1 = [])
    ∧ QueryMetric.GetName <$> gathered_queries scenario_queries = ["q1"; "q0"]
    ∧ length r.1.2 = 11%nat.
Proof.
  eexists. split; [vm_compute; reflexivity|].
  split; [|split; vm_compute; reflexivity].
  apply (cycle_writes_gathered_queries sample_header sample_catalog 1234 scenario_queries
           first_locals []).
  vm_compute. reflexivity.
Defined.

Lemma complete_run_refines_witness :
  ∃ o, Complete.RunAggregator sample_header sample_wakings started [] = Some o
    ∧ RunAggregator 1000 (Complete.the_wake <$> sample_wakings) started
      = Some (Complete.the_run o)
    ∧ length (Complete.transactions o) = length (traced (Complete.the_run o))
    ∧ [] `prefix_of` Complete.ofs_ o.
Proof.
  eexists. split; [vm_compute; reflexivity|].
  apply (complete_run_refines sample_header sample_wakings started []).
  vm_compute. reflexivity.
Defined.

Lemma log_every_n_cycles_witness :
  ∃ o, Complete.RunAggregator sample_header sample_wakings started [] = Some o
    ∧ (∃ new, Complete.ofs_ o = [] ++ new
         ∧ record_figures <$> new
           = due_records (Header.STATS_LOG_INTERVALS sample_header) 0
               (traced (Complete.the_run o)))
    ∧ Complete.at_interval <$> Complete.ofs_ o = [2; 4].
Proof.
  eexists. split; [vm_compute; reflexivity|]. split; [|vm_compute; reflexivity].
  apply (log_every_n_cycles sample_header sample_wakings started []).
  - vm_compute. reflexivity.
  - vm_compute. reflexivity.
Defined.
